(** * FocusGame: a shallow embedding of FocusGame.py

    The Python program keeps one [FocusGame] object that owns a 6x6 list of
    lists of [Queue] objects, two [Player] objects and the name of the player
    to move.  Python integers are modelled as [Z], strings (player names and
    piece symbols) as [string], the dictionary [_players] as a [gmap] from
    names to references to the two player objects, and every method as a
    state-passing computation that either returns a value or raises. *)

From Stdlib Require Import ZArith Lia.
From stdpp Require Import base option list strings gmap.

Local Open Scope string_scope.
Local Open Scope Z_scope.

(** ** Python values and control effects *)

(** The exceptions the program can raise: a missing dictionary key and an
    index outside a list. *)
Inductive exn : Type :=
  | KeyError
  | IndexError.

Inductive result (A : Type) : Type :=
  | Ret (a : A)
  | Raise (e : exn).
Arguments Ret {A} a.
Arguments Raise {A} e.

(** What [reserved_move] and [move_piece] hand back to the caller. *)
Inductive pyval : Type :=
  | PyFalse
  | PyNone
  | PyStr (s : string).

(** [i in range(n)] *)
Definition in_range (i n : Z) : bool :=
  bool_decide (0 ≤ i) && bool_decide (i < n).

(** Position of index [i] in a list of length [len]: Python counts a negative
    index from the end and raises [IndexError] outside [-len, len). *)
Definition py_index (len : nat) (i : Z) : option nat :=
  if bool_decide (0 ≤ i) then
    if bool_decide (i < Z.of_nat len) then Some (Z.to_nat i) else None
  else
    if bool_decide (- Z.of_nat len ≤ i) then Some (Z.to_nat (Z.of_nat len + i))
    else None.

(** Bound of a slice: negative bounds count from the end, and both ends are
    clipped to the list. *)
Definition py_bound (len : nat) (i : Z) : nat :=
  if bool_decide (i < 0) then Z.to_nat (Z.max 0 (Z.of_nat len + i))
  else Z.to_nat (Z.min i (Z.of_nat len)).

(** [l[i:]] *)
Definition slice_from {A} (l : list A) (i : Z) : list A :=
  drop (py_bound (length l) i) l.

(** [l[:j]] *)
Definition slice_to {A} (l : list A) (j : Z) : list A :=
  take (py_bound (length l) j) l.

Definition MAX_HEIGHT : Z := 5.

(** ** class Queue *)

Record Queue : Type := mkQueue { data : list string }.

Module Q.

(** [Queue(first_member)] *)
Definition init (first_member : string) : Queue :=
  {| data := [first_member] |}.

Definition enqueue (q : Queue) (value : string) : Queue :=
  {| data := data q ++ [value] |}.

(** [value = self.data[0]; del self.data[0]; return value] *)
Definition dequeue (q : Queue) : result string * Queue :=
  match data q with
  | [] => (Raise IndexError, q)
  | value :: rest => (Ret value, {| data := rest |})
  end.

Definition is_empty (q : Queue) : bool :=
  bool_decide (length (data q) = 0%nat).

(** [self.data[-1]] *)
Definition display_top (q : Queue) : result string :=
  match last (data q) with
  | Some v => Ret v
  | None => Raise IndexError
  end.

(** [removed = self.data[-n:]; self.data = self.data[:-n]] *)
Definition remove_items (q : Queue) (num_pieces : Z)
  : list string * Queue :=
  (slice_from (data q) (- num_pieces),
   {| data := slice_to (data q) (- num_pieces) |}).

Definition add_items (q : Queue) (pieces_to_add : list string) : Queue :=
  {| data := data q ++ pieces_to_add |}.

Definition get_data (q : Queue) : list string := data q.

Definition get_length (q : Queue) : Z := Z.of_nat (length (data q)).

End Q.

(** ** class Player *)

Record Player : Type := mkPlayer {
  _name : string;
  _piece : string;
  _reserve : Z;
  _captured : Z
}.

Module P.

Definition init (name piece : string) : Player :=
  {| _name := name; _piece := piece; _reserve := 0; _captured := 0 |}.

Definition get_name (p : Player) : string := _name p.
Definition get_piece (p : Player) : string := _piece p.
Definition get_reserved (p : Player) : Z := _reserve p.
Definition get_captured (p : Player) : Z := _captured p.

Definition add_captured (p : Player) : Player :=
  {| _name := _name p; _piece := _piece p;
     _reserve := _reserve p; _captured := _captured p + 1 |}.

Definition add_reserved (p : Player) : Player :=
  {| _name := _name p; _piece := _piece p;
     _reserve := _reserve p + 1; _captured := _captured p |}.

Definition remove_reserved (p : Player) : Player :=
  {| _name := _name p; _piece := _piece p;
     _reserve := if bool_decide (_reserve p > 0) then _reserve p - 1
                 else _reserve p - 0;
     _captured := _captured p |}.

End P.

(** ** class FocusGame *)

(** The two [Player] objects live in the fields [_first_player] and
    [_second_player]; the dictionary [_players] holds references to them. *)
Inductive pref : Type :=
  | FirstP
  | SecondP.

(** A reference to one [Queue] object of the board: its row and column. *)
Definition cref : Type := nat * nat.

Record FocusGame : Type := mkGame {
  _game_board : list (list Queue);
  _first_player : Player;
  _second_player : Player;
  _players : gmap string pref;
  _player_turn : option string
}.

(** State-passing computations over the game object; a raised exception
    leaves the state as it was when it was raised. *)
Definition G (A : Type) : Type := FocusGame → result A * FocusGame.

Definition ret {A} (a : A) : G A := λ g, (Ret a, g).
Definition bind {A B} (m : G A) (k : A → G B) : G B :=
  λ g, match m g with
       | (Ret a, g') => k a g'
       | (Raise e, g') => (Raise e, g')
       end.
Definition get : G FocusGame := λ g, (Ret g, g).
Definition put (g' : FocusGame) : G unit := λ _, (Ret tt, g').

Notation "x ←' m ; k" := (bind m (λ x, k))
  (at level 100, m at next level, right associativity,
   format "'[v' x  ←'  m ; '/' k ']'").
Notation "m ;;' k" := (bind m (λ _, k))
  (at level 100, right associativity).

(** *** The object store *)

Definition deref (g : FocusGame) (r : pref) : Player :=
  match r with
  | FirstP => _first_player g
  | SecondP => _second_player g
  end.

Definition set_board (g : FocusGame) (b : list (list Queue)) : FocusGame :=
  {| _game_board := b; _first_player := _first_player g;
     _second_player := _second_player g; _players := _players g;
     _player_turn := _player_turn g |}.

Definition set_turn (g : FocusGame) (t : option string) : FocusGame :=
  {| _game_board := _game_board g; _first_player := _first_player g;
     _second_player := _second_player g; _players := _players g;
     _player_turn := t |}.

Definition assign (g : FocusGame) (r : pref) (p : Player) : FocusGame :=
  match r with
  | FirstP =>
      {| _game_board := _game_board g; _first_player := p;
         _second_player := _second_player g; _players := _players g;
         _player_turn := _player_turn g |}
  | SecondP =>
      {| _game_board := _game_board g; _first_player := _first_player g;
         _second_player := p; _players := _players g;
         _player_turn := _player_turn g |}
  end.

(** The queue object a cell reference points to. *)
Definition board_cell (b : list (list Queue)) (c : cref) : Queue :=
  default {| data := [] |} (b !! c.1 ≫= λ line, line !! c.2).

Definition cell (g : FocusGame) (c : cref) : Queue :=
  board_cell (_game_board g) c.

Definition board_store (b : list (list Queue)) (c : cref) (q : Queue)
  : list (list Queue) :=
  match b !! c.1 with
  | Some line => <[c.1 := <[c.2 := q]> line]> b
  | None => b
  end.

Definition store (g : FocusGame) (c : cref) (q : Queue) : FocusGame :=
  set_board g (board_store (_game_board g) c q).

(** [self._players[player_name]] *)
Definition players_item (player_name : string) : G pref :=
  λ g, match _players g !! player_name with
       | Some r => (Ret r, g)
       | None => (Raise KeyError, g)
       end.

(** [self._game_board[row][column]] *)
Definition board_item (row column : Z) : G cref :=
  λ g, match py_index (length (_game_board g)) row with
       | None => (Raise IndexError, g)
       | Some r =>
           match _game_board g !! r with
           | None => (Raise IndexError, g)
           | Some line =>
               match py_index (length line) column with
               | None => (Raise IndexError, g)
               | Some c => (Ret (r, c), g)
               end
           end
       end.

(** Method calls on the objects behind a reference. *)
Definition player_update (r : pref) (f : Player → Player) : G unit :=
  λ g, (Ret tt, assign g r (f (deref g r))).

Definition enqueue (c : cref) (value : string) : G unit :=
  λ g, (Ret tt, store g c (Q.enqueue (cell g c) value)).

Definition dequeue (c : cref) : G string :=
  λ g, match Q.dequeue (cell g c) with
       | (Ret v, q) => (Ret v, store g c q)
       | (Raise e, _) => (Raise e, g)
       end.

Definition remove_items (c : cref) (num_pieces : Z) : G (list string) :=
  λ g, let '(removed, q) := Q.remove_items (cell g c) num_pieces in
       (Ret removed, store g c q).

Definition add_items (c : cref) (pieces_to_add : list string) : G unit :=
  λ g, (Ret tt, store g c (Q.add_items (cell g c) pieces_to_add)).

Definition display_top (c : cref) : G string :=
  λ g, (Q.display_top (cell g c), g).

(** *** Construction *)

Definition initial_board : list (list Queue) :=
  [ [Q.init "R"; Q.init "R"; Q.init "G"; Q.init "G"; Q.init "R"; Q.init "R"];
    [Q.init "G"; Q.init "G"; Q.init "R"; Q.init "R"; Q.init "G"; Q.init "G"];
    [Q.init "R"; Q.init "R"; Q.init "G"; Q.init "G"; Q.init "R"; Q.init "R"];
    [Q.init "G"; Q.init "G"; Q.init "R"; Q.init "R"; Q.init "G"; Q.init "G"];
    [Q.init "R"; Q.init "R"; Q.init "G"; Q.init "G"; Q.init "R"; Q.init "R"];
    [Q.init "G"; Q.init "G"; Q.init "R"; Q.init "R"; Q.init "G"; Q.init "G"] ].

(** [FocusGame(player_a, player_b)]; a dictionary display with a repeated
    key keeps the later value. *)
Definition new_game (player_a player_b : string * string) : FocusGame :=
  let first := P.init player_a.1 player_a.2 in
  let second := P.init player_b.1 player_b.2 in
  {| _game_board := initial_board;
     _first_player := first;
     _second_player := second;
     _players :=
       <[P.get_name second := SecondP]> (<[P.get_name first := FirstP]> ∅);
     _player_turn := Some (P.get_name first) |}.

(** *** Queries *)

Definition get_game_board (g : FocusGame) : list (list Queue) :=
  _game_board g.

Definition get_player_turn (g : FocusGame) : option string :=
  _player_turn g.

Definition show_reserve (player_name : string) : G Z :=
  λ g, match _players g !! player_name with
       | None => (Ret 0, g)
       | Some r => (Ret (P.get_reserved (deref g r)), g)
       end.

Definition show_captured (player_name : string) : G Z :=
  λ g, match _players g !! player_name with
       | None => (Ret 0, g)
       | Some r => (Ret (P.get_captured (deref g r)), g)
       end.

Definition show_pieces (position : Z * Z) : G (list string) :=
  let '(row, column) := position in
  c ←' board_item row column;
  g ←' get;
  ret (Q.get_data (cell g c)).

(** *** Rule checks *)

Definition check_position (g : FocusGame) (row column : Z) : bool :=
  let n := Z.of_nat (length (get_game_board g)) in
  if negb (in_range row n) then false
  else if negb (in_range column n) then false
  else true.

Definition check_move
    (start_row start_column end_row end_column num_pieces : Z) : bool :=
  if bool_decide (start_row - end_row = 0)
     && bool_decide (Z.abs (start_column - end_column) = num_pieces)
  then true
  else if bool_decide (start_column - end_column = 0)
          && bool_decide (Z.abs (start_row - end_row) = num_pieces)
  then true
  else false.

(** [for x in range(n): acc = body(x, acc)], stopping at the first raise. *)
Fixpoint for_range {A} (xs : list nat) (body : nat → A → G A) (acc : A)
  : G A :=
  match xs with
  | [] => ret acc
  | x :: xs' => acc' ←' body x acc; for_range xs' body acc'
  end.

Definition check_win (player_name : string) : G bool :=
  r ←' players_item player_name;
  g ←' get;
  let player := deref g r in
  let wins := if bool_decide (P.get_captured player < 18) then false
              else true in
  let n := length (_game_board g) in
  for_range (seq 0 n) (λ row wins,
    for_range (seq 0 n) (λ column wins,
      c ←' board_item (Z.of_nat row) (Z.of_nat column);
      if bool_decide (Q.get_length (cell g c) > 0) then
        top ←' display_top c;
        if bool_decide (top ≠ P.get_piece player) then ret false
        else ret wins
      else ret wins) wins) wins.

Definition switch_turns : G unit :=
  λ g, if bool_decide (_player_turn g = Some (P.get_name (_first_player g)))
       then (Ret tt, set_turn g (Some (P.get_name (_second_player g))))
       else (Ret tt, set_turn g (Some (P.get_name (_first_player g)))).

(** The body of the loop of [remove_pieces], run [n] times. *)
Fixpoint remove_loop (n : nat) (reserved_player : pref) (stack : cref)
  : G unit :=
  match n with
  | O => ret tt
  | S n' =>
      removed_piece ←' dequeue stack;
      g ←' get;
      (if bool_decide (removed_piece = P.get_piece (deref g reserved_player))
       then player_update reserved_player P.add_reserved
       else player_update reserved_player P.add_captured) ;;'
      remove_loop n' reserved_player stack
  end.

Definition remove_pieces (player_name : string) (row column : Z) : G unit :=
  reserved_player ←' players_item player_name;
  stack ←' board_item row column;
  g ←' get;
  if bool_decide (Q.get_length (cell g stack) > MAX_HEIGHT) then
    remove_loop (Z.to_nat (Q.get_length (cell g stack) - MAX_HEIGHT))
      reserved_player stack
  else ret tt.

(** *** Moves *)

Definition reserved_move (player_name : string) (position : Z * Z)
  : G pyval :=
  let '(row, column) := position in
  player ←' players_item player_name;
  g ←' get;
  if bool_decide (Some player_name ≠ _player_turn g) then ret PyFalse
  else if bool_decide (P.get_reserved (deref g player) ≤ 0) then ret PyFalse
  else if negb (check_position g row column) then ret PyFalse
  else
    c ←' board_item row column;
    enqueue c (P.get_piece (deref g player)) ;;'
    player_update player P.remove_reserved ;;'
    remove_pieces player_name row column ;;'
    switch_turns ;;'
    ret PyNone.

Definition move_piece (player_name : string) (move_from move_to : Z * Z)
    (num_pieces : Z) : G pyval :=
  let '(start_row, start_column) := move_from in
  let '(end_row, end_column) := move_to in
  player ←' players_item player_name;
  g ←' get;
  if bool_decide (Some player_name ≠ _player_turn g) then ret PyFalse
  else if negb (check_position g start_row start_column)
          || negb (check_position g end_row end_column) then ret PyFalse
  else
    src ←' board_item start_row start_column;
    if bool_decide (num_pieces > Q.get_length (cell g src)) then ret PyFalse
    else if negb (check_move start_row start_column end_row end_column
                    num_pieces) then ret PyFalse
    else
      top ←' display_top src;
      if bool_decide (P.get_piece (deref g player) ≠ top) then ret PyFalse
      else
        moved_pieces ←' remove_items src num_pieces;
        dst ←' board_item end_row end_column;
        add_items dst moved_pieces ;;'
        remove_pieces player_name end_row end_column ;;'
        switch_turns ;;'
        wins ←' check_win player_name;
        if wins then
          (g' ←' get; put (set_turn g' None)) ;;' ret (PyStr "Wins")
        else ret (PyStr "successfully moved").

(** *** Sequences of calls *)

Inductive call : Type :=
  | ReservedMove (player_name : string) (position : Z * Z)
  | MovePiece (player_name : string) (move_from move_to : Z * Z)
      (num_pieces : Z).

Definition run_call (c : call) : G pyval :=
  match c with
  | ReservedMove n p => reserved_move n p
  | MovePiece n f t k => move_piece n f t k
  end.

(** The caller goes on with the next call whatever the previous one
    returned or raised. *)
Fixpoint run_calls (cs : list call) (g : FocusGame) : FocusGame :=
  match cs with
  | [] => g
  | c :: cs' => run_calls cs' (run_call c g).2
  end.

(** What each call of a sequence returned. *)
Fixpoint outcomes (cs : list call) (g : FocusGame) : list (result pyval) :=
  match cs with
  | [] => []
  | c :: cs' => (run_call c g).1 :: outcomes cs' (run_call c g).2
  end.

Definition carried_out (o : result pyval) : bool :=
  match o with
  | Ret PyNone | Ret (PyStr _) => true
  | _ => false
  end.

(** ** Vocabulary of the statements *)

(** The board is a square grid: every row is as long as the board is high.
    The constructor builds a 6x6 one and no method changes the shape. *)
Definition square (b : list (list Queue)) : Prop :=
  Forall (λ line, length line = length b) b.

(** A reference that points into a board of side [n]. *)
Definition inside (n : nat) (c : cref) : Prop :=
  (c.1 < n)%nat ∧ (c.2 < n)%nat.

(** The reference a checked position denotes. *)
Definition at_pos (row column : Z) : cref := (Z.to_nat row, Z.to_nat column).

(** Pieces of symbol [piece] in a list of pieces, and the others. *)
Definition own_count (piece : string) (l : list string) : Z :=
  Z.of_nat (length (filter (λ x, x = piece) l)).

Definition foreign_count (piece : string) (l : list string) : Z :=
  Z.of_nat (length (filter (λ x, x ≠ piece) l)).

(** A player credited with a list of removed pieces. *)
Definition credit (l : list string) (p : Player) : Player :=
  {| _name := _name p; _piece := _piece p;
     _reserve := _reserve p + own_count (_piece p) l;
     _captured := _captured p + foreign_count (_piece p) l |}.

(** Number of pieces a stack holds above the maximum height. *)
Definition excess (s : list string) : nat :=
  Z.to_nat (Z.of_nat (length s) - MAX_HEIGHT).

(** Pieces on the board, and pieces in the whole game. *)
Definition board_pieces (b : list (list Queue)) : Z :=
  Z.of_nat (sum_list (map (λ line, sum_list (map (λ q, length (data q)) line)) b)).

Definition total_pieces (g : FocusGame) : Z :=
  board_pieces (_game_board g)
  + _reserve (_first_player g) + _reserve (_second_player g)
  + _captured (_first_player g) + _captured (_second_player g).

(** The win condition in the words of the rules: at least 18 captured and
    the player's piece on top of every stack that is not empty. *)
Definition wins (g : FocusGame) (r : pref) : Prop :=
  18 ≤ _captured (deref g r) ∧
  ∀ c, inside (length (_game_board g)) c →
       data (cell g c) ≠ [] →
       last (data (cell g c)) = Some (_piece (deref g r)).

(** Whether the stack behind [c] is empty or shows [piece] on top. *)
Definition top_ok (g : FocusGame) (piece : string) (c : cref) : bool :=
  match data (cell g c) with
  | [] => true
  | _ => bool_decide (last (data (cell g c)) = Some piece)
  end.

(** The win condition as a computation over the whole board. *)
Definition won (g : FocusGame) (r : pref) : bool :=
  let n := length (_game_board g) in
  (if bool_decide (_captured (deref g r) < 18) then false else true)
  && forallb (λ row,
       forallb (λ column, top_ok g (_piece (deref g r)) (row, column))
         (seq 0 n)) (seq 0 n).

(** The state [remove_pieces] leaves when player [r] acted on the stack [c]:
    the stack keeps its top [MAX_HEIGHT] pieces and the player is credited
    with the pieces below them. *)
Definition settle (g : FocusGame) (r : pref) (c : cref) : FocusGame :=
  let s := data (cell g c) in
  assign (store g c {| data := drop (excess s) s |}) r
    (credit (take (excess s) s) (deref g r)).

(** The state right after a piece from the reserve of [r] is put on [c]. *)
Definition placed (g : FocusGame) (r : pref) (c : cref) : FocusGame :=
  assign (store g c (Q.enqueue (cell g c) (_piece (deref g r)))) r
    (P.remove_reserved (deref g r)).

(** The state right after [k] pieces went from [src] to [dst]. *)
Definition transferred (g : FocusGame) (src dst : cref) (k : Z) : FocusGame :=
  let lifted := Q.remove_items (cell g src) k in
  let g1 := store g src lifted.2 in
  store g1 dst (Q.add_items (cell g1 dst) lifted.1).

Definition next_turn (g : FocusGame) : FocusGame := (switch_turns g).2.

(** A call that was carried out, as opposed to refused or aborted. *)
Definition completed (o : result pyval) : Prop :=
  o = Ret PyNone ∨ o = Ret (PyStr "successfully moved")
  ∨ o = Ret (PyStr "Wins").

(** What no method changes: the side of the board, its squareness and the
    dictionary. *)
Definition same_shape (g g' : FocusGame) : Prop :=
  length (_game_board g') = length (_game_board g)
  ∧ (square (_game_board g) → square (_game_board g'))
  ∧ _players g' = _players g.

(** The board the constructor builds: six rows of six cells. *)
Definition board_6x6 (g : FocusGame) : Prop :=
  length (_game_board g) = 6%nat ∧ square (_game_board g).

(** The dictionary the constructor builds when the two names differ. *)
Definition two_players (g : FocusGame) : Prop :=
  _name (_first_player g) ≠ _name (_second_player g)
  ∧ _players g =
      <[_name (_second_player g) := SecondP]>
        (<[_name (_first_player g) := FirstP]> ∅).

Definition other (r : pref) : pref :=
  match r with
  | FirstP => SecondP
  | SecondP => FirstP
  end.

Definition caller (c : call) : string :=
  match c with
  | ReservedMove n _ => n
  | MovePiece n _ _ _ => n
  end.

(** Positions of the 6x6 board. *)
Definition in_bounds (p : Z * Z) : Prop :=
  0 ≤ p.1 < 6 ∧ 0 ≤ p.2 < 6.

(** A horizontal or vertical line of exactly [k] cells. *)
Definition straight_line (p1 p2 : Z * Z) (k : Z) : Prop :=
  (p1.1 = p2.1 ∧ Z.abs (p1.2 - p2.2) = k)
  ∨ (p1.2 = p2.2 ∧ Z.abs (p1.1 - p2.1) = k).

(** The preconditions of the two moves in the words of the rules, for the
    player object [r] of the caller: a call is refused when one fails.  By
    the rules a move goes along a line of at least one cell. *)
Definition refused (g : FocusGame) (r : pref) (c : call) : Prop :=
  match c with
  | ReservedMove n p =>
      _player_turn g ≠ Some n
      ∨ _reserve (deref g r) ≤ 0
      ∨ ¬ in_bounds p
  | MovePiece n p1 p2 k =>
      _player_turn g ≠ Some n
      ∨ ¬ in_bounds p1 ∨ ¬ in_bounds p2
      ∨ k > Q.get_length (cell g (at_pos p1.1 p1.2))
      ∨ ¬ (1 ≤ k ∧ straight_line p1 p2 k)
      ∨ ∃ top, last (data (cell g (at_pos p1.1 p1.2))) = Some top
               ∧ top ≠ _piece (deref g r)
  end.

(** The same preconditions, all met. *)
Definition allowed (g : FocusGame) (r : pref) (c : call) : Prop :=
  match c with
  | ReservedMove n p =>
      _player_turn g = Some n
      ∧ 0 < _reserve (deref g r)
      ∧ in_bounds p
  | MovePiece n p1 p2 k =>
      _player_turn g = Some n
      ∧ in_bounds p1 ∧ in_bounds p2
      ∧ k ≤ Q.get_length (cell g (at_pos p1.1 p1.2))
      ∧ 1 ≤ k ∧ straight_line p1 p2 k
      ∧ last (data (cell g (at_pos p1.1 p1.2))) = Some (_piece (deref g r))
  end.

(** The move of no piece from a cell to itself. *)
Definition zero_self_move (c : call) : Prop :=
  match c with
  | ReservedMove _ _ => False
  | MovePiece _ p1 p2 k => k = 0 ∧ p1 = p2
  end.

(** The position a call lands pieces on. *)
Definition landing (c : call) : Z * Z :=
  match c with
  | ReservedMove _ p => p
  | MovePiece _ _ p2 _ => p2
  end.

(** The statements of the two moves that land the pieces, for the player
    object [r] of the caller: the [enqueue] and [remove_reserved] of
    [reserved_move], the [remove_items] and [add_items] of [move_piece]. *)
Definition land (r : pref) (c : call) : G unit :=
  match c with
  | ReservedMove _ p =>
      cl ←' board_item p.1 p.2;
      g ←' get;
      enqueue cl (P.get_piece (deref g r)) ;;'
      player_update r P.remove_reserved
  | MovePiece _ p1 p2 k =>
      src ←' board_item p1.1 p1.2;
      moved_pieces ←' remove_items src k;
      dst ←' board_item p2.1 p2.2;
      add_items dst moved_pieces
  end.

(** ** Concrete games *)

Definition alice_bob : FocusGame := new_game ("A", "R") ("B", "G").

(** Seven moves of each player after which the first player has two pieces
    in reserve and the stack on (2,0) is five high with an own piece at the
    bottom. *)
Definition overflow_game : list call :=
  [ MovePiece "A" (0, 1) (0, 0) 1;
    MovePiece "B" (5, 1) (5, 0) 1;
    MovePiece "A" (0, 0) (2, 0) 2;
    MovePiece "B" (5, 0) (5, 1) 1;
    MovePiece "A" (2, 1) (2, 0) 1;
    MovePiece "B" (5, 1) (5, 0) 1;
    MovePiece "A" (4, 0) (3, 0) 1;
    MovePiece "B" (5, 0) (5, 1) 1;
    MovePiece "A" (3, 0) (2, 0) 1;
    MovePiece "B" (5, 1) (5, 0) 1;
    MovePiece "A" (1, 2) (2, 2) 1;
    MovePiece "B" (5, 0) (5, 1) 1;
    MovePiece "A" (2, 2) (2, 0) 2;
    MovePiece "B" (5, 1) (5, 0) 1 ].

Definition before_overflow : FocusGame := run_calls overflow_game alice_bob.

(** A game in which the second player only shuttles one piece between two
    cells while the first player captures every other piece. *)
Definition winning_game : list call :=
  [ MovePiece "A" (2, 1) (3, 1) 1;
    MovePiece "B" (5, 1) (5, 0) 1;
    MovePiece "A" (3, 1) (1, 1) 2;
    MovePiece "B" (5, 0) (5, 1) 1;
    MovePiece "A" (1, 1) (1, 4) 3;
    MovePiece "B" (5, 1) (5, 0) 1;
    MovePiece "A" (1, 4) (1, 0) 4;
    MovePiece "B" (5, 0) (5, 1) 1;
    MovePiece "A" (1, 0) (1, 5) 5;
    MovePiece "B" (5, 1) (5, 0) 1;
    MovePiece "A" (0, 5) (1, 5) 1;
    MovePiece "B" (5, 0) (5, 1) 1;
    MovePiece "A" (4, 5) (3, 5) 1;
    MovePiece "B" (5, 1) (5, 0) 1;
    MovePiece "A" (3, 5) (1, 5) 2;
    MovePiece "B" (5, 0) (5, 1) 1;
    MovePiece "A" (2, 5) (1, 5) 1;
    MovePiece "B" (5, 1) (5, 0) 1;
    MovePiece "A" (1, 5) (5, 5) 4;
    MovePiece "B" (5, 0) (5, 1) 1;
    MovePiece "A" (5, 3) (5, 4) 1;
    MovePiece "B" (5, 1) (5, 0) 1;
    MovePiece "A" (5, 4) (3, 4) 2;
    MovePiece "B" (5, 0) (5, 1) 1;
    MovePiece "A" (4, 4) (3, 4) 1;
    MovePiece "B" (5, 1) (5, 0) 1;
    MovePiece "A" (3, 4) (3, 0) 4;
    MovePiece "B" (5, 0) (5, 1) 1;
    MovePiece "A" (2, 0) (3, 0) 1;
    MovePiece "B" (5, 1) (5, 0) 1;
    MovePiece "A" (1, 2) (2, 2) 1;
    MovePiece "B" (5, 0) (5, 1) 1;
    MovePiece "A" (2, 2) (0, 2) 2;
    MovePiece "B" (5, 1) (5, 0) 1;
    MovePiece "A" (0, 1) (0, 2) 1;
    MovePiece "B" (5, 0) (5, 1) 1;
    MovePiece "A" (0, 2) (4, 2) 4;
    MovePiece "B" (5, 1) (5, 0) 1;
    MovePiece "A" (4, 1) (4, 2) 1;
    MovePiece "B" (5, 0) (5, 1) 1;
    MovePiece "A" (4, 0) (3, 0) 1;
    MovePiece "B" (5, 1) (5, 0) 1;
    MovePiece "A" (2, 4) (2, 3) 1;
    MovePiece "B" (5, 0) (5, 1) 1;
    MovePiece "A" (2, 3) (4, 3) 2;
    MovePiece "B" (5, 1) (5, 0) 1;
    MovePiece "A" (3, 3) (4, 3) 1;
    MovePiece "B" (5, 0) (5, 1) 1;
    MovePiece "A" (4, 3) (0, 3) 4;
    MovePiece "B" (5, 1) (5, 0) 1;
    MovePiece "A" (1, 3) (0, 3) 1;
    MovePiece "B" (5, 0) (5, 1) 1;
    MovePiece "A" (5, 2) (4, 2) 1;
    MovePiece "B" (5, 1) (5, 0) 1;
    MovePiece "A" (5, 5) (0, 5) 5;
    MovePiece "B" (5, 0) (5, 1) 1;
    MovePiece "A" (1, 5) (0, 5) 1;
    MovePiece "B" (5, 1) (5, 0) 1;
    MovePiece "A" (0, 5) (0, 3) 2;
    MovePiece "B" (5, 0) (5, 1) 1;
    MovePiece "A" (0, 3) (0, 5) 2;
    MovePiece "B" (5, 1) (5, 0) 1;
    MovePiece "A" (0, 3) (0, 5) 2;
    MovePiece "B" (5, 0) (5, 1) 1;
    MovePiece "A" (0, 5) (0, 0) 5;
    MovePiece "B" (5, 1) (5, 0) 1;
    ReservedMove "A" (4, 2);
    MovePiece "B" (5, 0) (5, 1) 1;
    ReservedMove "A" (3, 0);
    MovePiece "B" (5, 1) (5, 0) 1 ].

Definition winning_move : call :=
  MovePiece "A" (0, 0) (5, 0) 5.

Definition before_win : FocusGame := run_calls winning_game alice_bob.

Definition after_win : FocusGame := (run_call winning_move before_win).2.

(** ** Further code: truth values and the board dump *)

(** [bool(v)] for the values the two moves return. *)
Definition truthy (v : pyval) : bool :=
  match v with
  | PyFalse | PyNone => false
  | PyStr s => negb (bool_decide (s = ""))
  end.

Definition newline : string := String (Ascii.ascii_of_nat 10) "".

(** [board[row]] for the loop header [range(len(board[row]))]. *)
Definition row_item (row : Z) : G (list Queue) :=
  λ g, match py_index (length (_game_board g)) row with
       | None => (Raise IndexError, g)
       | Some r =>
           match _game_board g !! r with
           | None => (Raise IndexError, g)
           | Some line => (Ret line, g)
           end
       end.

(** [print_game_board], returning the text it writes: [print(x, end=" ")]
    writes [x] and a blank, [print("")] ends the line. *)
Definition print_game_board : G string :=
  g ←' get;
  let board := get_game_board g in
  for_range (seq 0 (length board)) (λ row out,
    line ←' row_item (Z.of_nat row);
    out ←' for_range (seq 0 (length line)) (λ column out,
      c ←' board_item (Z.of_nat row) (Z.of_nat column);
      if bool_decide (Q.get_length (cell g c) > 0) then
        top ←' display_top c;
        ret (out +:+ top +:+ " ")
      else ret (out +:+ " " +:+ " ")) out;
    ret (out +:+ newline)) "".

(** The two characters a cell is shown with, and the text of the board. *)
Definition cell_text (q : Queue) : string :=
  match last (data q) with
  | Some top => top +:+ " "
  | None => " " +:+ " "
  end.

Definition board_text (b : list (list Queue)) : string :=
  foldl (λ out line,
    foldl (λ out q, out +:+ cell_text q) out line +:+ newline) "" b.

(** Calls of a sequence that were carried out. *)
Definition moves_made (cs : list call) (g : FocusGame) : nat :=
  length (filter (λ o, carried_out o = true) (outcomes cs g)).

(** Whether a sequence of calls contains a winning move. *)
Definition game_won (cs : list call) (g : FocusGame) : Prop :=
  Ret (PyStr "Wins") ∈ outcomes cs g.

(** The two symbols of the starting layout. *)
Definition on_board (x : string) : Prop := x = "R" ∨ x = "G".

(** Every piece on the board is R or G, and a player with pieces in reserve
    plays one of the two. *)
Definition symbols_ok (g : FocusGame) : Prop :=
  (∀ c, Forall on_board (data (cell g c)))
  ∧ ∀ r, 0 < _reserve (deref g r) → on_board (_piece (deref g r)).

(** ** Facts about the object store *)

Lemma square_lookup b i line :
  square b → b !! i = Some line → length line = length b.
Proof.
  intros Hsq Hl. unfold square in Hsq. rewrite Forall_forall in Hsq.
  apply Hsq. eapply list_elem_of_lookup_2; eauto.
Qed.

Lemma board_store_length b c q : length (board_store b c q) = length b.
Proof.
  unfold board_store. destruct (b !! c.1); [apply length_insert | done].
Qed.

Lemma board_store_square b c q : square b → square (board_store b c q).
Proof.
  intros Hsq. unfold square. rewrite board_store_length.
  unfold board_store. destruct (b !! c.1) as [line|] eqn:E; [|done].
  apply Forall_insert; [done|].
  rewrite length_insert. eapply square_lookup; eauto.
Qed.

Lemma board_cell_store_eq b c q :
  square b → inside (length b) c → board_cell (board_store b c q) c = q.
Proof.
  intros Hsq [H1 H2]. unfold board_cell, board_store.
  destruct (lookup_lt_is_Some_2 b c.1 H1) as [line E]. rewrite E.
  rewrite list_lookup_insert_eq by done. simpl.
  rewrite list_lookup_insert_eq; [done|].
  rewrite (square_lookup _ _ _ Hsq E). done.
Qed.

Lemma board_cell_store_ne b c c' q :
  c ≠ c' → board_cell (board_store b c q) c' = board_cell b c'.
Proof.
  intros Hne. unfold board_cell, board_store.
  destruct (b !! c.1) as [line|] eqn:E; [|done].
  destruct (decide (c.1 = c'.1)) as [Heq|Hn1].
  - rewrite <- Heq.
    rewrite list_lookup_insert_eq by (eapply lookup_lt_Some; eauto).
    rewrite E. simpl.
    rewrite list_lookup_insert_ne; [done|].
    intros Heq2. apply Hne. destruct c, c'; simpl in *; congruence.
  - rewrite list_lookup_insert_ne by done. done.
Qed.

Lemma board_store_id b c : board_store b c (board_cell b c) = b.
Proof.
  unfold board_store, board_cell.
  destruct (b !! c.1) as [line|] eqn:E; [|done]. simpl.
  destruct (line !! c.2) as [q|] eqn:E2; simpl.
  - rewrite (list_insert_id line _ _ E2). by apply list_insert_id.
  - rewrite (list_insert_ge line) by (by apply lookup_ge_None).
    by apply list_insert_id.
Qed.

Lemma board_store_store b c q q' :
  board_store (board_store b c q) c q' = board_store b c q'.
Proof.
  unfold board_store.
  destruct (b !! c.1) as [line|] eqn:E; [|by rewrite E].
  rewrite list_lookup_insert_eq by (eapply lookup_lt_Some; eauto).
  rewrite list_insert_insert_eq. f_equal.
  by rewrite list_insert_insert_eq.
Qed.

Lemma sum_list_insert {A} (f : A → nat) (l : list A) i x old :
  l !! i = Some old →
  (sum_list (map f (<[i:=x]> l)) + f old = sum_list (map f l) + f x)%nat.
Proof.
  revert i. induction l as [|y l IH]; intros [|i] Hl; simpl in *; try done.
  - injection Hl as ->. lia.
  - specialize (IH i Hl). lia.
Qed.

Lemma board_pieces_store b c q :
  square b → inside (length b) c →
  board_pieces (board_store b c q)
  = board_pieces b - Z.of_nat (length (data (board_cell b c)))
    + Z.of_nat (length (data q)).
Proof.
  intros Hsq [H1 H2]. unfold board_pieces, board_store, board_cell.
  destruct (lookup_lt_is_Some_2 b c.1 H1) as [line E]. rewrite E. simpl.
  assert (Hlen : length line = length b) by (eapply square_lookup; eauto).
  destruct (lookup_lt_is_Some_2 line c.2) as [old E2]; [lia|].
  rewrite E2. simpl.
  pose proof (sum_list_insert
    (λ line, sum_list (map (λ q, length (data q)) line)) b c.1
    (<[c.2:=q]> line) line E) as Hrows.
  pose proof (sum_list_insert (λ q, length (data q)) line c.2 q old E2)
    as Hline.
  simpl in *. lia.
Qed.

Section store_facts.
Context (g : FocusGame).

Lemma cell_store_eq c q :
  square (_game_board g) → inside (length (_game_board g)) c →
  cell (store g c q) c = q.
Proof. intros. unfold cell, store. simpl. by apply board_cell_store_eq. Qed.

Lemma cell_store_ne c c' q : c ≠ c' → cell (store g c q) c' = cell g c'.
Proof. intros. unfold cell, store. simpl. by apply board_cell_store_ne. Qed.

Lemma cell_assign r p c : cell (assign g r p) c = cell g c.
Proof. by destruct r. Qed.

Lemma board_assign r p : _game_board (assign g r p) = _game_board g.
Proof. by destruct r. Qed.

Lemma players_assign r p : _players (assign g r p) = _players g.
Proof. by destruct r. Qed.

Lemma turn_assign r p : _player_turn (assign g r p) = _player_turn g.
Proof. by destruct r. Qed.

Lemma deref_store c q r : deref (store g c q) r = deref g r.
Proof. by destruct r. Qed.

Lemma deref_set_turn t r : deref (set_turn g t) r = deref g r.
Proof. by destruct r. Qed.

Lemma deref_assign_eq r p : deref (assign g r p) r = p.
Proof. by destruct r. Qed.

Lemma deref_assign_ne r r' p : r ≠ r' → deref (assign g r p) r' = deref g r'.
Proof. by destruct r, r'. Qed.

Lemma store_id c : store g c (cell g c) = g.
Proof.
  unfold store, cell, set_board. rewrite board_store_id. by destruct g.
Qed.

Lemma assign_id r : assign g r (deref g r) = g.
Proof. destruct r, g; reflexivity. Qed.

Lemma store_store c q q' : store (store g c q) c q' = store g c q'.
Proof. unfold store, set_board. simpl. by rewrite board_store_store. Qed.

Lemma assign_assign r p p' : assign (assign g r p) r p' = assign g r p'.
Proof. by destruct r. Qed.

Lemma store_assign r p c q :
  store (assign g r p) c q = assign (store g c q) r p.
Proof. by destruct r. Qed.

Lemma board_store_game c q :
  _game_board (store g c q) = board_store (_game_board g) c q.
Proof. reflexivity. Qed.

Lemma total_pieces_store c q :
  square (_game_board g) → inside (length (_game_board g)) c →
  total_pieces (store g c q)
  = total_pieces g - Q.get_length (cell g c) + Q.get_length q.
Proof.
  intros Hsq Hin. unfold total_pieces, store, cell, Q.get_length. simpl.
  rewrite board_pieces_store by done. lia.
Qed.

Lemma total_pieces_assign r p :
  total_pieces (assign g r p)
  = total_pieces g - _reserve (deref g r) - _captured (deref g r)
    + _reserve p + _captured p.
Proof. destruct r; unfold total_pieces; simpl; lia. Qed.

Lemma total_pieces_set_turn t : total_pieces (set_turn g t) = total_pieces g.
Proof. reflexivity. Qed.
End store_facts.

(** ** Facts about pieces and slices *)

Lemma credit_nil p : credit [] p = p.
Proof.
  destruct p. unfold credit, own_count, foreign_count. simpl.
  f_equal; lia.
Qed.

Lemma credit_cons_own v l p :
  v = _piece p → credit l (P.add_reserved p) = credit (v :: l) p.
Proof.
  intros ->. unfold credit, P.add_reserved, own_count, foreign_count. simpl.
  rewrite filter_cons_True by done.
  rewrite filter_cons_False by (intros H; by apply H).
  simpl. f_equal; lia.
Qed.

Lemma credit_cons_foreign v l p :
  v ≠ _piece p → credit l (P.add_captured p) = credit (v :: l) p.
Proof.
  intros Hne. unfold credit, P.add_captured, own_count, foreign_count. simpl.
  rewrite filter_cons_False by done.
  rewrite filter_cons_True by done.
  simpl. f_equal; lia.
Qed.

Lemma own_foreign_count piece l :
  own_count piece l + foreign_count piece l = Z.of_nat (length l).
Proof.
  unfold own_count, foreign_count.
  induction l as [|x l IH]; simpl; [done|].
  destruct (decide (x = piece)) as [->|Hne].
  - rewrite filter_cons_True by done.
    rewrite filter_cons_False by (intros H; by apply H). simpl. lia.
  - rewrite filter_cons_False by done.
    rewrite filter_cons_True by done. simpl. lia.
Qed.

(** ** Running the methods *)

Lemma in_range_spec i n : in_range i n = true ↔ 0 ≤ i < n.
Proof.
  unfold in_range. rewrite andb_true_iff, !bool_decide_eq_true. lia.
Qed.

Lemma check_position_spec g row column :
  check_position g row column = true ↔
  0 ≤ row < Z.of_nat (length (_game_board g)) ∧
  0 ≤ column < Z.of_nat (length (_game_board g)).
Proof.
  unfold check_position, get_game_board.
  destruct (in_range row _) eqn:Er; simpl.
  - destruct (in_range column _) eqn:Ec; simpl.
    + apply in_range_spec in Er, Ec. split; [done|lia].
    + split; [done|]. intros [_ Hc]. apply in_range_spec in Hc. congruence.
  - split; [done|]. intros [Hr _]. apply in_range_spec in Hr. congruence.
Qed.

Lemma check_position_inside g row column :
  check_position g row column = true →
  inside (length (_game_board g)) (at_pos row column).
Proof.
  intros H%check_position_spec. unfold inside, at_pos. simpl. lia.
Qed.

Lemma py_index_nonneg len i :
  0 ≤ i < Z.of_nat len → py_index len i = Some (Z.to_nat i).
Proof.
  intros H. unfold py_index.
  rewrite bool_decide_eq_true_2 by lia. by rewrite bool_decide_eq_true_2 by lia.
Qed.

Lemma board_item_checked g row column :
  square (_game_board g) → check_position g row column = true →
  board_item row column g = (Ret (at_pos row column), g).
Proof.
  intros Hsq H%check_position_spec. unfold board_item.
  rewrite py_index_nonneg by lia.
  destruct (lookup_lt_is_Some_2 (_game_board g) (Z.to_nat row)) as [line E];
    [lia|].
  rewrite E. rewrite (square_lookup _ _ _ Hsq E).
  by rewrite py_index_nonneg by lia.
Qed.

Lemma board_item_inside g c :
  square (_game_board g) → inside (length (_game_board g)) c →
  board_item (Z.of_nat c.1) (Z.of_nat c.2) g = (Ret c, g).
Proof.
  intros Hsq [H1 H2].
  rewrite board_item_checked; [|done|apply check_position_spec; lia].
  unfold at_pos. rewrite !Nat2Z.id. by destruct c.
Qed.

Lemma remove_loop_spec n r c g :
  square (_game_board g) → inside (length (_game_board g)) c →
  (n ≤ length (data (cell g c)))%nat →
  remove_loop n r c g
  = (Ret tt,
     assign (store g c {| data := drop n (data (cell g c)) |}) r
       (credit (take n (data (cell g c))) (deref g r))).
Proof.
  revert g. induction n as [|n IH]; intros g Hsq Hin Hn; simpl.
  - unfold ret. f_equal. rewrite drop_0, take_0, credit_nil.
    destruct (cell g c) as [s] eqn:E; simpl. rewrite <- E.
    by rewrite store_id, assign_id.
  - destruct (cell g c) as [s] eqn:E; simpl in *.
    destruct s as [|v rest]; simpl in Hn; [lia|].
    unfold bind at 1. unfold dequeue. rewrite E. simpl.
    unfold bind at 1. unfold get.
    rewrite deref_store.
    set (g1 := store g c {| data := rest |}).
    assert (Hc1 : cell g1 c = {| data := rest |})
      by (by apply cell_store_eq).
    assert (Hstep : ∀ p,
      remove_loop n r c (assign g1 r p)
      = (Ret tt, assign (store g c {| data := drop n rest |}) r
                   (credit (take n rest) p))).
    { intros p. rewrite IH.
      - rewrite cell_assign, Hc1. simpl. rewrite deref_assign_eq.
        rewrite store_assign, assign_assign. unfold g1.
        by rewrite store_store.
      - rewrite board_assign. unfold g1. rewrite board_store_game.
        by apply board_store_square.
      - rewrite board_assign. unfold g1.
        by rewrite board_store_game, board_store_length.
      - rewrite cell_assign, Hc1. simpl. lia. }
    case_bool_decide as Hv.
    + unfold bind, player_update. rewrite Hstep. unfold g1.
      by rewrite deref_store, (credit_cons_own v).
    + unfold bind, player_update. rewrite Hstep. unfold g1.
      by rewrite deref_store, (credit_cons_foreign v).
Qed.

Lemma remove_pieces_spec g name row column r :
  square (_game_board g) →
  _players g !! name = Some r →
  check_position g row column = true →
  let c := at_pos row column in
  let s := data (cell g c) in
  remove_pieces name row column g
  = (Ret tt,
     assign (store g c {| data := drop (excess s) s |}) r
       (credit (take (excess s) s) (deref g r))).
Proof.
  intros Hsq Hr Hpos c s. unfold remove_pieces.
  unfold bind at 1. unfold players_item. rewrite Hr.
  unfold bind at 1. rewrite board_item_checked by done.
  unfold bind at 1. unfold get. fold c.
  pose proof (check_position_inside _ _ _ Hpos) as Hin. fold c in Hin.
  unfold Q.get_length. fold s. unfold excess, MAX_HEIGHT.
  case_bool_decide as Hlen.
  - apply remove_loop_spec; [done..|]. fold s. lia.
  - replace (Z.to_nat (Z.of_nat (length s) - 5)) with 0%nat by lia.
    unfold ret. f_equal. rewrite drop_0, take_0, credit_nil.
    subst s. destruct (cell g c) as [s'] eqn:E; simpl. rewrite <- E.
    by rewrite store_id, assign_id.
Qed.

Lemma for_range_all (xs : list nat) (ok : nat → bool)
    (body : nat → bool → G bool) (acc : bool) (g : FocusGame) :
  (∀ x a, x ∈ xs → body x a g = (Ret (if ok x then a else false), g)) →
  for_range xs body acc g = (Ret (acc && forallb ok xs), g).
Proof.
  revert acc. induction xs as [|x xs IH]; intros acc Hbody; simpl.
  - by rewrite andb_true_r.
  - unfold bind. rewrite Hbody by set_solver.
    rewrite IH by (intros; apply Hbody; set_solver).
    f_equal. f_equal. destruct (ok x), acc; simpl; done.
Qed.

Lemma top_ok_spec g piece c :
  top_ok g piece c = true ↔
  (data (cell g c) ≠ [] → last (data (cell g c)) = Some piece).
Proof.
  unfold top_ok. destruct (data (cell g c)) as [|v s] eqn:E.
  - split; [done|]. done.
  - rewrite bool_decide_eq_true. split; [done|]. intros H. by apply H.
Qed.

Lemma check_win_cell g piece row column (a : bool) :
  square (_game_board g) →
  inside (length (_game_board g)) (row, column) →
  (c ←' board_item (Z.of_nat row) (Z.of_nat column);
   if bool_decide (Q.get_length (cell g c) > 0) then
     top ←' display_top c;
     if bool_decide (top ≠ piece) then ret false else ret a
   else ret a) g
  = (Ret (if top_ok g piece (row, column) then a else false), g).
Proof.
  intros Hsq Hin. unfold bind at 1.
  pose proof (board_item_inside g (row, column) Hsq Hin) as Hitem.
  simpl in Hitem. rewrite Hitem.
  unfold top_ok, Q.get_length.
  destruct (data (cell g (row, column))) as [|v s] eqn:E.
  - rewrite bool_decide_eq_false_2 by (simpl; lia). done.
  - rewrite bool_decide_eq_true_2 by (simpl; lia).
    unfold bind, display_top, Q.display_top. rewrite E.
    destruct (last (v :: s)) as [top|] eqn:El.
    + destruct (decide (top = piece)) as [->|Hne].
      * rewrite bool_decide_eq_false_2 by (intros H; by apply H).
        by rewrite bool_decide_eq_true_2.
      * rewrite bool_decide_eq_true_2 by done.
        rewrite bool_decide_eq_false_2 by congruence. done.
    + apply last_None in El. done.
Qed.

Lemma check_win_run g name r :
  square (_game_board g) → _players g !! name = Some r →
  check_win name g = (Ret (won g r), g).
Proof.
  intros Hsq Hr. unfold check_win.
  unfold bind at 1. unfold players_item. rewrite Hr.
  unfold bind at 1. unfold get. unfold won, P.get_captured, P.get_piece.
  set (n := length (_game_board g)).
  set (piece := _piece (deref g r)).
  apply (for_range_all _ (λ row,
    forallb (λ column, top_ok g piece (row, column)) (seq 0 n))).
  intros row a Hrow%elem_of_seq.
  rewrite (for_range_all _ (λ column, top_ok g piece (row, column))).
  - f_equal. f_equal. by destruct a, (forallb _ _).
  - intros column a' Hcol%elem_of_seq.
    apply check_win_cell; [done|]. unfold inside. simpl. fold n. lia.
Qed.

Lemma won_spec g r : won g r = true ↔ wins g r.
Proof.
  unfold won, wins. set (n := length (_game_board g)).
  rewrite andb_true_iff, forallb_forall. split.
  - intros [Hcap Hall]. split.
    + destruct (decide (_captured (deref g r) < 18)) as [Hlt|Hge]; [|lia].
      by rewrite bool_decide_eq_true_2 in Hcap.
    + intros [row column] [Hrow Hcol]. simpl in *.
      assert (Hrok : forallb (λ column,
                top_ok g (_piece (deref g r)) (row, column)) (seq 0 n) = true)
        by (apply Hall, in_seq; lia).
      rewrite forallb_forall in Hrok.
      apply top_ok_spec. apply Hrok, in_seq. lia.
  - intros [Hcap Hall]. split.
    + by rewrite bool_decide_eq_false_2 by lia.
    + intros row Hrow%in_seq.
      apply forallb_forall. intros column Hcol%in_seq.
      apply top_ok_spec. apply Hall. unfold inside. simpl. lia.
Qed.

(** ** What no method changes: the shape of the board and the dictionary *)

Lemma same_shape_refl g : same_shape g g.
Proof. by unfold same_shape. Qed.

Lemma same_shape_trans g1 g2 g3 :
  same_shape g1 g2 → same_shape g2 g3 → same_shape g1 g3.
Proof.
  intros (L1 & S1 & P1) (L2 & S2 & P2). unfold same_shape.
  rewrite L2, L1, P2, P1. auto.
Qed.

Lemma same_shape_store g c q : same_shape g (store g c q).
Proof.
  unfold same_shape. rewrite board_store_game, board_store_length.
  split; [done|]. split; [|done]. apply board_store_square.
Qed.

Lemma same_shape_assign g r p : same_shape g (assign g r p).
Proof. unfold same_shape. by rewrite board_assign, players_assign. Qed.

Lemma same_shape_set_turn g t : same_shape g (set_turn g t).
Proof. by unfold same_shape. Qed.

Lemma same_shape_settle g r c : same_shape g (settle g r c).
Proof.
  unfold settle. eapply same_shape_trans;
    [apply same_shape_store | apply same_shape_assign].
Qed.

Lemma same_shape_placed g r c : same_shape g (placed g r c).
Proof.
  unfold placed. eapply same_shape_trans;
    [apply same_shape_store | apply same_shape_assign].
Qed.

Lemma same_shape_transferred g src dst k :
  same_shape g (transferred g src dst k).
Proof.
  unfold transferred. simpl. eapply same_shape_trans; apply same_shape_store.
Qed.

Lemma same_shape_next_turn g : same_shape g (next_turn g).
Proof.
  unfold next_turn, switch_turns. case_bool_decide; apply same_shape_set_turn.
Qed.

Lemma check_position_shape g g' row column :
  same_shape g g' → check_position g' row column = check_position g row column.
Proof. intros (L & _). unfold check_position, get_game_board. by rewrite L. Qed.

Lemma switch_turns_run g : switch_turns g = (Ret tt, next_turn g).
Proof. unfold next_turn, switch_turns. by case_bool_decide. Qed.

Lemma remove_pieces_run g name row column r :
  square (_game_board g) → _players g !! name = Some r →
  check_position g row column = true →
  remove_pieces name row column g = (Ret tt, settle g r (at_pos row column)).
Proof. intros. unfold settle. by apply remove_pieces_spec. Qed.

(** [reserved_move] as one equation. *)
Lemma reserved_move_run g name row column r :
  square (_game_board g) → _players g !! name = Some r →
  reserved_move name (row, column) g =
    if bool_decide (Some name ≠ _player_turn g) then (Ret PyFalse, g)
    else if bool_decide (_reserve (deref g r) ≤ 0) then (Ret PyFalse, g)
    else if negb (check_position g row column) then (Ret PyFalse, g)
    else
      let c := at_pos row column in
      (Ret PyNone, next_turn (settle (placed g r c) r c)).
Proof.
  intros Hsq Hr. unfold reserved_move.
  unfold bind at 1. unfold players_item. rewrite Hr.
  unfold bind at 1. unfold get. unfold P.get_reserved.
  case_bool_decide; [done|]. case_bool_decide; [done|].
  destruct (check_position g row column) eqn:Hpos; simpl; [|done].
  unfold bind at 1. rewrite board_item_checked by done.
  unfold bind at 1. unfold enqueue.
  unfold bind at 1. unfold player_update. rewrite deref_store.
  unfold P.get_piece. fold (placed g r (at_pos row column)).
  pose proof (same_shape_placed g r (at_pos row column)) as Hsh.
  unfold bind at 1. rewrite (remove_pieces_run _ _ _ _ r).
  - unfold bind. by rewrite switch_turns_run.
  - by apply Hsh.
  - destruct Hsh as (_ & _ & ->). done.
  - by rewrite (check_position_shape g).
Qed.

(** [move_piece] as one equation. *)
Lemma move_piece_run g name start_row start_column end_row end_column k r :
  square (_game_board g) → _players g !! name = Some r →
  move_piece name (start_row, start_column) (end_row, end_column) k g =
    let src := at_pos start_row start_column in
    let dst := at_pos end_row end_column in
    if bool_decide (Some name ≠ _player_turn g) then (Ret PyFalse, g)
    else if negb (check_position g start_row start_column)
            || negb (check_position g end_row end_column)
    then (Ret PyFalse, g)
    else if bool_decide (k > Q.get_length (cell g src)) then (Ret PyFalse, g)
    else if negb (check_move start_row start_column end_row end_column k)
    then (Ret PyFalse, g)
    else match Q.display_top (cell g src) with
         | Raise e => (Raise e, g)
         | Ret top =>
             if bool_decide (_piece (deref g r) ≠ top) then (Ret PyFalse, g)
             else
               let g' := next_turn (settle (transferred g src dst k) r dst) in
               if won g' r then (Ret (PyStr "Wins"), set_turn g' None)
               else (Ret (PyStr "successfully moved"), g')
         end.
Proof.
  intros Hsq Hr. unfold move_piece.
  unfold bind at 1. unfold players_item. rewrite Hr.
  unfold bind at 1. unfold get. simpl.
  case_bool_decide; [done|].
  destruct (check_position g start_row start_column) eqn:Hp1; simpl; [|done].
  destruct (check_position g end_row end_column) eqn:Hp2; simpl; [|done].
  unfold bind at 1. rewrite board_item_checked by done.
  set (src := at_pos start_row start_column).
  set (dst := at_pos end_row end_column).
  case_bool_decide; [done|].
  destruct (check_move _ _ _ _ _) eqn:Hmv; simpl; [|done].
  unfold bind at 1. unfold display_top.
  destruct (Q.display_top (cell g src)) as [top|e]; [|done].
  unfold P.get_piece. case_bool_decide; [done|].
  unfold bind at 1. unfold remove_items.
  destruct (Q.remove_items (cell g src) k) as [moved q] eqn:Hrm.
  set (g1 := store g src q).
  assert (Hsh1 : same_shape g g1) by apply same_shape_store.
  unfold bind at 1. rewrite board_item_checked;
    [|by apply Hsh1|by rewrite (check_position_shape g)].
  fold dst. unfold bind at 1. unfold add_items.
  assert (Htr : store g1 dst (Q.add_items (cell g1 dst) moved)
                = transferred g src dst k).
  { unfold transferred. rewrite Hrm. done. }
  rewrite Htr.
  pose proof (same_shape_transferred g src dst k) as Hsh2.
  unfold bind at 1. rewrite (remove_pieces_run _ _ _ _ r);
    [|by apply Hsh2|by destruct Hsh2 as (_ & _ & ->)
     |by rewrite (check_position_shape g)].
  fold dst. unfold bind at 1. rewrite switch_turns_run.
  set (g' := next_turn _).
  assert (Hsh3 : same_shape g g').
  { unfold g'. eapply same_shape_trans; [exact Hsh2|].
    eapply same_shape_trans; [apply same_shape_settle|].
    apply same_shape_next_turn. }
  unfold bind at 1. rewrite (check_win_run _ _ r);
    [|by apply Hsh3|by destruct Hsh3 as (_ & _ & ->)].
  by destruct (won g' r).
Qed.

Lemma reserved_move_unknown g name position :
  _players g !! name = None →
  reserved_move name position g = (Raise KeyError, g).
Proof.
  intros Hr. destruct position. unfold reserved_move, bind, players_item.
  by rewrite Hr.
Qed.

Lemma move_piece_unknown g name move_from move_to k :
  _players g !! name = None →
  move_piece name move_from move_to k g = (Raise KeyError, g).
Proof.
  intros Hr. destruct move_from, move_to.
  unfold move_piece, bind, players_item. by rewrite Hr.
Qed.

(** ** Slices *)

Lemma slice_split {A} (l : list A) (i : Z) :
  (slice_to l i ++ slice_from l i)%list = l.
Proof. unfold slice_to, slice_from. apply take_drop. Qed.

Lemma py_bound_top len k :
  0 ≤ k ≤ Z.of_nat len → k ≠ 0 → py_bound len (- k) = (len - Z.to_nat k)%nat.
Proof.
  intros Hk Hk0. unfold py_bound. rewrite bool_decide_eq_true_2 by lia. lia.
Qed.

Lemma last_drop {A} (l : list A) k :
  (k < length l)%nat → last (drop k l) = last l.
Proof.
  intros Hk. rewrite <- (take_drop k l) at 2.
  rewrite last_app. destruct (last (drop k l)) eqn:E; [done|].
  apply last_None in E. apply (f_equal length) in E.
  rewrite length_drop in E. simpl in E. lia.
Qed.

Lemma excess_spec s :
  Z.of_nat (length (drop (excess s) s))
  = Z.min (Z.of_nat (length s)) MAX_HEIGHT.
Proof. unfold excess, MAX_HEIGHT. rewrite length_drop. lia. Qed.

Lemma excess_le s : (excess s ≤ length s)%nat.
Proof. unfold excess, MAX_HEIGHT. lia. Qed.

(** ** Inversion of the two moves *)

(** Closes the branch of a call that returned early. *)
Ltac stays := left; simplify_eq; split; [reflexivity | eauto].

Lemma reserved_move_inv g name row column o g' :
  square (_game_board g) →
  reserved_move name (row, column) g = (o, g') →
  (g' = g ∧ (o = Ret PyFalse ∨ o = Raise KeyError))
  ∨ ∃ r, _players g !! name = Some r
       ∧ _player_turn g = Some name
       ∧ 0 < _reserve (deref g r)
       ∧ check_position g row column = true
       ∧ o = Ret PyNone
       ∧ g' = next_turn (settle (placed g r (at_pos row column)) r
                           (at_pos row column)).
Proof.
  intros Hsq Hrun.
  destruct (_players g !! name) as [r|] eqn:Hr.
  - rewrite (reserved_move_run g name row column r Hsq Hr) in Hrun.
    case_bool_decide as Ht; [stays|].
    case_bool_decide as Hres; [stays|].
    destruct (check_position g row column) eqn:Hpos; simpl in Hrun;
      [|stays].
    right. exists r. simplify_eq. split_and!; try done. lia.
  - rewrite reserved_move_unknown in Hrun by done. stays.
Qed.

Lemma move_piece_inv g name start_row start_column end_row end_column k o g' :
  square (_game_board g) →
  move_piece name (start_row, start_column) (end_row, end_column) k g
  = (o, g') →
  (g' = g ∧ (o = Ret PyFalse ∨ ∃ e, o = Raise e))
  ∨ ∃ r, let src := at_pos start_row start_column in
         let dst := at_pos end_row end_column in
         let g4 := next_turn (settle (transferred g src dst k) r dst) in
         _players g !! name = Some r
       ∧ _player_turn g = Some name
       ∧ check_position g start_row start_column = true
       ∧ check_position g end_row end_column = true
       ∧ k ≤ Q.get_length (cell g src)
       ∧ check_move start_row start_column end_row end_column k = true
       ∧ last (data (cell g src)) = Some (_piece (deref g r))
       ∧ ((won g4 r = true ∧ o = Ret (PyStr "Wins") ∧ g' = set_turn g4 None)
          ∨ (won g4 r = false ∧ o = Ret (PyStr "successfully moved")
             ∧ g' = g4)).
Proof.
  intros Hsq Hrun.
  destruct (_players g !! name) as [r|] eqn:Hr.
  - rewrite (move_piece_run g name _ _ _ _ k r Hsq Hr) in Hrun.
    simpl in Hrun.
    case_bool_decide as Ht; [stays|].
    destruct (check_position g start_row start_column) eqn:Hp1;
      simpl in Hrun; [|stays].
    destruct (check_position g end_row end_column) eqn:Hp2;
      simpl in Hrun; [|stays].
    case_bool_decide as Hk; [stays|].
    destruct (check_move _ _ _ _ _) eqn:Hmv; simpl in Hrun;
      [|stays].
    unfold Q.display_top in Hrun.
    destruct (last (data (cell g (at_pos start_row start_column))))
      as [top|] eqn:Htop; [|stays].
    case_bool_decide as Hown; [stays|].
    right. exists r. simpl.
    unfold P.get_piece in *. subst top.
    split_and!; try done; try lia.
    destruct (won _ r) eqn:Hwon; simplify_eq; [left|right]; done.
  - rewrite move_piece_unknown in Hrun by done. stays.
Qed.

(** ** What each stage of a move leaves behind *)

Section stages.
Context (g : FocusGame) (r : pref) (c : cref).
Hypothesis Hsq : square (_game_board g).
Hypothesis Hin : inside (length (_game_board g)) c.

Lemma cell_settle :
  data (cell (settle g r c) c)
  = drop (excess (data (cell g c))) (data (cell g c)).
Proof. unfold settle. rewrite cell_assign, cell_store_eq; done. Qed.

Lemma cell_settle_ne c' : c' ≠ c → cell (settle g r c) c' = cell g c'.
Proof.
  intros Hne. unfold settle. rewrite cell_assign, cell_store_ne; done.
Qed.

Lemma deref_settle :
  deref (settle g r c) r
  = credit (take (excess (data (cell g c))) (data (cell g c))) (deref g r).
Proof. unfold settle. by rewrite deref_assign_eq. Qed.

Lemma deref_settle_ne r' : r' ≠ r → deref (settle g r c) r' = deref g r'.
Proof.
  intros Hne. unfold settle. rewrite deref_assign_ne, deref_store; done.
Qed.

Lemma turn_settle : _player_turn (settle g r c) = _player_turn g.
Proof. unfold settle. by rewrite turn_assign. Qed.

Lemma cell_placed :
  data (cell (placed g r c) c)
  = (data (cell g c) ++ [_piece (deref g r)])%list.
Proof. unfold placed. rewrite cell_assign, cell_store_eq; done. Qed.

Lemma cell_placed_ne c' : c' ≠ c → cell (placed g r c) c' = cell g c'.
Proof.
  intros Hne. unfold placed. rewrite cell_assign, cell_store_ne; done.
Qed.

Lemma deref_placed : deref (placed g r c) r = P.remove_reserved (deref g r).
Proof. unfold placed. by rewrite deref_assign_eq. Qed.

Lemma deref_placed_ne r' : r' ≠ r → deref (placed g r c) r' = deref g r'.
Proof.
  intros Hne. unfold placed. rewrite deref_assign_ne, deref_store; done.
Qed.

Lemma turn_placed : _player_turn (placed g r c) = _player_turn g.
Proof. unfold placed. by rewrite turn_assign. Qed.
End stages.

Lemma board_next_turn g : _game_board (next_turn g) = _game_board g.
Proof. unfold next_turn, switch_turns. by case_bool_decide. Qed.

Lemma cell_next_turn g c : cell (next_turn g) c = cell g c.
Proof. unfold cell. by rewrite board_next_turn. Qed.

Lemma deref_next_turn g r : deref (next_turn g) r = deref g r.
Proof. unfold next_turn, switch_turns. case_bool_decide; by destruct r. Qed.

Lemma turn_next_turn g :
  _player_turn (next_turn g)
  = Some (if bool_decide (_player_turn g = Some (_name (_first_player g)))
          then _name (_second_player g) else _name (_first_player g)).
Proof.
  unfold next_turn, switch_turns, P.get_name. by case_bool_decide.
Qed.

Section transfer.
Context (g : FocusGame) (src dst : cref) (k : Z).
Hypothesis Hsq : square (_game_board g).
Hypothesis Hsrc : inside (length (_game_board g)) src.
Hypothesis Hdst : inside (length (_game_board g)) dst.

Lemma transferred_run :
  (moved ←' remove_items src k; add_items dst moved) g
  = (Ret tt, transferred g src dst k).
Proof.
  unfold bind, remove_items, add_items, transferred.
  by destruct (Q.remove_items (cell g src) k).
Qed.

Lemma cell_transferred_src :
  src ≠ dst →
  data (cell (transferred g src dst k) src)
  = slice_to (data (cell g src)) (- k).
Proof.
  intros Hne. unfold transferred. simpl.
  rewrite cell_store_ne by done. by rewrite cell_store_eq.
Qed.

Lemma cell_transferred_dst :
  src ≠ dst →
  data (cell (transferred g src dst k) dst)
  = (data (cell g dst) ++ slice_from (data (cell g src)) (- k))%list.
Proof.
  intros Hne. unfold transferred. simpl.
  rewrite cell_store_eq;
    [|by apply same_shape_store
     |by rewrite board_store_game, board_store_length].
  simpl. by rewrite cell_store_ne.
Qed.

Lemma cell_transferred_same :
  src = dst →
  data (cell (transferred g src dst k) dst)
  = (slice_to (data (cell g src)) (- k)
     ++ slice_from (data (cell g src)) (- k))%list.
Proof.
  intros <-. unfold transferred. simpl.
  rewrite cell_store_eq;
    [|by apply same_shape_store
     |by rewrite board_store_game, board_store_length].
  simpl. by rewrite cell_store_eq.
Qed.

Lemma cell_transferred_ne c :
  c ≠ src → c ≠ dst → cell (transferred g src dst k) c = cell g c.
Proof.
  intros H1 H2. unfold transferred. simpl.
  rewrite !cell_store_ne; done.
Qed.

End transfer.

Lemma check_move_spec r1 c1 r2 c2 k :
  check_move r1 c1 r2 c2 k = true ↔ straight_line (r1, c1) (r2, c2) k.
Proof.
  unfold check_move, straight_line. simpl.
  repeat case_bool_decide; simpl; split; try done; try lia.
Qed.

Lemma at_pos_inj r1 c1 r2 c2 :
  0 ≤ r1 → 0 ≤ c1 → 0 ≤ r2 → 0 ≤ c2 →
  at_pos r1 c1 = at_pos r2 c2 → r1 = r2 ∧ c1 = c2.
Proof. unfold at_pos. intros ???? [= Hr Hc]. lia. Qed.

(** ** Names and turns *)

Lemma two_players_lookup g name r :
  two_players g → _players g !! name = Some r → name = _name (deref g r).
Proof.
  intros [Hne Hd] Hr. rewrite Hd in Hr.
  destruct (decide (_name (_second_player g) = name)) as [<-|H2].
  - rewrite lookup_insert_eq in Hr. by simplify_eq.
  - rewrite lookup_insert_ne in Hr by done.
    destruct (decide (_name (_first_player g) = name)) as [<-|H1].
    + rewrite lookup_insert_eq in Hr. by simplify_eq.
    + rewrite lookup_insert_ne in Hr by done. by rewrite lookup_empty in Hr.
Qed.

Lemma name_assign g r p r' :
  _name p = _name (deref g r) →
  _name (deref (assign g r p) r') = _name (deref g r').
Proof. intros Hp. by destruct r, r'. Qed.

Lemma name_settle g r c r' :
  _name (deref (settle g r c) r') = _name (deref g r').
Proof. unfold settle. rewrite name_assign; by rewrite ?deref_store. Qed.

Lemma name_placed g r c r' :
  _name (deref (placed g r c) r') = _name (deref g r').
Proof. unfold placed. rewrite name_assign; by rewrite ?deref_store. Qed.

(** After the turn of the caller [r] the move goes to the other player. *)
Lemma turn_passes g g2 name r :
  two_players g → _players g !! name = Some r →
  _player_turn g = Some name →
  (∀ r', _name (deref g2 r') = _name (deref g r')) →
  _player_turn g2 = _player_turn g →
  _player_turn (next_turn g2) = Some (_name (deref g (other r)))
  ∧ _player_turn (next_turn g2) ≠ _player_turn g.
Proof.
  intros Htwo Hr Hturn Hnames Ht2.
  pose proof (two_players_lookup _ _ _ Htwo Hr) as Hname.
  destruct Htwo as [Hne _].
  rewrite turn_next_turn, Ht2, Hturn.
  pose proof (Hnames FirstP) as H1. pose proof (Hnames SecondP) as H2.
  simpl in H1, H2. rewrite H1, H2.
  destruct r; simpl in *; subst name.
  - rewrite bool_decide_eq_true_2 by done. split; [done|]. congruence.
  - rewrite bool_decide_eq_false_2 by congruence. split; [done|]. congruence.
Qed.

(** Every call of the two concrete games is carried out. *)
Example concrete_games_carried_out :
  forallb carried_out (outcomes overflow_game alice_bob) = true
  ∧ forallb carried_out (outcomes winning_game alice_bob) = true.
Proof. vm_compute. done. Qed.

Example before_overflow_position :
  map (map data) (_game_board before_overflow)
  = [ [[]; []; ["G"]; ["G"]; ["R"]; ["R"]];
      [["G"]; ["G"]; []; ["R"]; ["G"]; ["G"]];
      [["R"; "R"; "R"; "G"; "R"]; []; []; ["G"]; ["R"]; ["R"]];
      [["G"]; ["G"]; ["R"]; ["R"]; ["G"]; ["G"]];
      [[]; ["R"]; ["G"]; ["G"]; ["R"]; ["R"]];
      [["G"; "G"]; []; ["R"]; ["R"]; ["G"]; ["G"]] ]
  ∧ _reserve (_first_player before_overflow) = 2
  ∧ _player_turn before_overflow = Some "A".
Proof. vm_compute. done. Qed.

Lemma completed_inv o :
  completed o → o ≠ Ret PyFalse ∧ ∀ e, o ≠ Raise e.
Proof. intros [-> | [-> | ->]]; split; congruence. Qed.

Lemma cell_set_turn g t c : cell (set_turn g t) c = cell g c.
Proof. reflexivity. Qed.

Lemma in_bounds_check g p :
  board_6x6 g → check_position g p.1 p.2 = true ↔ in_bounds p.
Proof.
  intros [Hsix _]. rewrite check_position_spec, Hsix. unfold in_bounds. lia.
Qed.

Lemma unfinished_unchanged g c o g' :
  square (_game_board g) → run_call c g = (o, g') → ¬ completed o → g' = g.
Proof.
  intros Hsq Hrun Hnot. destruct c as [n [row column]|n [r1 c1] [r2 c2] k];
    unfold run_call in Hrun.
  - apply reserved_move_inv in Hrun as [[-> _]|Hok]; [done| |done].
    destruct Hok as (r & _ & _ & _ & _ & -> & _).
    exfalso. apply Hnot. by left.
  - apply move_piece_inv in Hrun as [[-> _]|Hok]; [done| |done].
    destruct Hok as (r & _ & _ & _ & _ & _ & _ & _ & Hend). simpl in Hend.
    exfalso. apply Hnot.
    destruct Hend as [(_ & -> & _)|(_ & -> & _)];
      unfold completed; auto.
Qed.

(** ** Invariants of a call *)

Lemma total_pieces_settle g r c :
  square (_game_board g) → inside (length (_game_board g)) c →
  total_pieces (settle g r c) = total_pieces g.
Proof.
  intros Hsq Hin. unfold settle.
  rewrite total_pieces_assign, total_pieces_store, deref_store by done.
  unfold Q.get_length, credit. simpl.
  pose proof (own_foreign_count (_piece (deref g r))
                (take (excess (data (cell g c))) (data (cell g c)))) as Hc.
  pose proof (excess_le (data (cell g c))) as Hle.
  rewrite length_take in Hc. rewrite length_drop. lia.
Qed.

Lemma total_pieces_placed g r c :
  square (_game_board g) → inside (length (_game_board g)) c →
  0 < _reserve (deref g r) →
  total_pieces (placed g r c) = total_pieces g.
Proof.
  intros Hsq Hin Hres. unfold placed.
  rewrite total_pieces_assign, total_pieces_store, deref_store by done.
  unfold Q.get_length, Q.enqueue, P.remove_reserved. simpl.
  rewrite bool_decide_eq_true_2 by lia. rewrite length_app. simpl. lia.
Qed.

Lemma total_pieces_transferred g src dst k :
  square (_game_board g) →
  inside (length (_game_board g)) src → inside (length (_game_board g)) dst →
  total_pieces (transferred g src dst k) = total_pieces g.
Proof.
  intros Hsq Hsrc Hdst. unfold transferred. simpl.
  rewrite total_pieces_store;
    [|by apply same_shape_store
     |by rewrite board_store_game, board_store_length].
  rewrite total_pieces_store by done.
  unfold Q.get_length, Q.add_items. simpl. rewrite length_app.
  pose proof (f_equal length (slice_split (data (cell g src)) (- k))) as Hs.
  rewrite length_app in Hs. lia.
Qed.

Lemma total_pieces_next_turn g : total_pieces (next_turn g) = total_pieces g.
Proof. unfold next_turn, switch_turns. by case_bool_decide. Qed.

Lemma not_completed_false : ¬ completed (Ret PyFalse).
Proof. intros [H|[H|H]]; discriminate H. Qed.

Lemma not_completed_raise e : ¬ completed (Raise e).
Proof. intros [H|[H|H]]; discriminate H. Qed.

(** A call leaves the state as it was or runs the stages of a move. *)
Lemma run_call_stages g c o g' :
  square (_game_board g) → run_call c g = (o, g') →
  (g' = g ∧ ¬ completed o)
  ∨ ∃ r gl dst,
      _players g !! caller c = Some r
      ∧ _player_turn g = Some (caller c)
      ∧ same_shape g gl
      ∧ inside (length (_game_board g)) dst
      ∧ total_pieces gl = total_pieces g
      ∧ (∀ r', _name (deref gl r') = _name (deref g r'))
      ∧ _player_turn gl = _player_turn g
      ∧ (∀ c', c' ≠ dst →
           (length (data (cell gl c')) ≤ length (data (cell g c')))%nat)
      ∧ (g' = next_turn (settle gl r dst)
           ∧ (o = Ret PyNone ∨ o = Ret (PyStr "successfully moved"))
         ∨ g' = set_turn (next_turn (settle gl r dst)) None
           ∧ o = Ret (PyStr "Wins")).
Proof.
  intros Hsq Hrun. destruct c as [n [row column]|n [r1 c1] [r2 c2] k];
    unfold run_call in Hrun.
  - apply reserved_move_inv in Hrun as [[-> Ho]|Hok]; [left| |done].
    { split; [done|]. destruct Ho as [->| ->];
        [apply not_completed_false | apply not_completed_raise]. }
    destruct Hok as (r & Hr & Hturn & Hres & Hpos & -> & ->).
    pose proof (check_position_inside _ _ _ Hpos) as Hin.
    right. exists r, (placed g r (at_pos row column)), (at_pos row column).
    split_and!; try done.
    + apply same_shape_placed.
    + by apply total_pieces_placed.
    + intros r'. apply name_placed.
    + apply turn_placed.
    + intros c' Hne. by rewrite cell_placed_ne.
    + left. split; [done|by left].
  - apply move_piece_inv in Hrun as [[-> Ho]|Hok]; [left| |done].
    { split; [done|]. destruct Ho as [->|[e ->]];
        [apply not_completed_false | apply not_completed_raise]. }
    destruct Hok as (r & Hr & Hturn & Hp1 & Hp2 & _ & _ & _ & Hend).
    simpl in Hend.
    pose proof (check_position_inside _ _ _ Hp1) as Hin1.
    pose proof (check_position_inside _ _ _ Hp2) as Hin2.
    right. exists r, (transferred g (at_pos r1 c1) (at_pos r2 c2) k),
             (at_pos r2 c2).
    split_and!; try done.
    + apply same_shape_transferred.
    + by apply total_pieces_transferred.
    + intros c' Hne.
      destruct (decide (c' = at_pos r1 c1)) as [->|Hns].
      * rewrite cell_transferred_src by done.
        unfold slice_to. rewrite length_take. lia.
      * by rewrite cell_transferred_ne.
    + destruct Hend as [(_ & -> & ->)|(_ & -> & ->)]; [by right|].
      left. split; [done|by right].
Qed.

Lemma run_call_shape g c o g' :
  square (_game_board g) → run_call c g = (o, g') → same_shape g g'.
Proof.
  intros Hsq Hrun.
  apply run_call_stages in Hrun as [[-> _]|Hst];
    [apply same_shape_refl| |done].
  destruct Hst as (r & gl & dst & _ & _ & Hsh & _ & _ & _ & _ & _ & Hend).
  eapply same_shape_trans; [exact Hsh|].
  eapply same_shape_trans; [apply same_shape_settle|].
  destruct Hend as [[-> _]|[-> _]]; [apply same_shape_next_turn|].
  eapply same_shape_trans; [apply same_shape_next_turn|].
  apply same_shape_set_turn.
Qed.

Lemma run_call_total g c o g' :
  square (_game_board g) → run_call c g = (o, g') →
  total_pieces g' = total_pieces g.
Proof.
  intros Hsq Hrun.
  apply run_call_stages in Hrun as [[-> _]|Hst]; [done| |done].
  destruct Hst as (r & gl & dst & _ & _ & Hsh & Hin & Htot & _ & _ & _ & Hend).
  destruct Hsh as (Hlen & Hsql & _).
  assert (total_pieces (next_turn (settle gl r dst)) = total_pieces g).
  { rewrite total_pieces_next_turn, total_pieces_settle; auto.
    by rewrite Hlen. }
  destruct Hend as [[-> _]|[-> _]]; by rewrite ?total_pieces_set_turn.
Qed.

Lemma run_call_names g c o g' :
  square (_game_board g) → run_call c g = (o, g') →
  ∀ r', _name (deref g' r') = _name (deref g r').
Proof.
  intros Hsq Hrun r'.
  apply run_call_stages in Hrun as [[-> _]|Hst]; [done| |done].
  destruct Hst as (r & gl & dst & _ & _ & _ & _ & _ & Hn & _ & _ & Hend).
  destruct Hend as [[-> _]|[-> _]];
    by rewrite ?deref_set_turn, deref_next_turn, name_settle.
Qed.

Lemma run_call_two_players g c o g' :
  square (_game_board g) → two_players g → run_call c g = (o, g') →
  two_players g'.
Proof.
  intros Hsq [Hne Hd] Hrun.
  pose proof (run_call_names _ _ _ _ Hsq Hrun) as Hn.
  pose proof (run_call_shape _ _ _ _ Hsq Hrun) as (_ & _ & Hp).
  pose proof (Hn FirstP) as H1. pose proof (Hn SecondP) as H2.
  simpl in H1, H2. unfold two_players. by rewrite H1, H2, Hp.
Qed.

Lemma run_calls_two_players g cs :
  square (_game_board g) → two_players g → two_players (run_calls cs g).
Proof.
  revert g. induction cs as [|c cs IH]; intros g Hsq Htwo; simpl; [done|].
  destruct (run_call c g) as [o g1] eqn:E. simpl.
  apply IH.
  - by apply (run_call_shape _ _ _ _ Hsq E).
  - by eapply run_call_two_players.
Qed.

(** No stack that was at most [MAX_HEIGHT] high grows beyond it. *)
Lemma run_call_heights g c o g' :
  square (_game_board g) → run_call c g = (o, g') →
  (∀ c', Q.get_length (cell g c') ≤ MAX_HEIGHT) →
  ∀ c', Q.get_length (cell g' c') ≤ MAX_HEIGHT.
Proof.
  intros Hsq Hrun Hlow c'.
  apply run_call_stages in Hrun as [[-> _]|Hst]; [done| |done].
  destruct Hst
    as (r & gl & dst & _ & _ & Hsh & Hin & _ & _ & _ & Hle & Hend).
  destruct Hsh as (Hlen & Hsql & _).
  assert (Hc : cell g' c' = cell (settle gl r dst) c').
  { destruct Hend as [[-> _]|[-> _]];
      by rewrite ?cell_set_turn, cell_next_turn. }
  rewrite Hc. unfold Q.get_length.
  destruct (decide (c' = dst)) as [->|Hne].
  - rewrite cell_settle; [|auto|by rewrite Hlen].
    rewrite excess_spec. lia.
  - rewrite cell_settle_ne by done.
    specialize (Hle c' Hne). specialize (Hlow c').
    unfold Q.get_length in Hlow. lia.
Qed.

Lemma new_game_square a b : square (_game_board (new_game a b)).
Proof. repeat constructor. Qed.

Lemma new_game_heights a b c :
  Q.get_length (cell (new_game a b) c) ≤ MAX_HEIGHT.
Proof.
  destruct c as [row column]. unfold MAX_HEIGHT.
  do 6 (destruct row as [|row]; [
    do 6 (destruct column as [|column]; [vm_compute; discriminate|]);
    vm_compute; discriminate|]).
  vm_compute; discriminate.
Qed.

(** What holds in every state a sequence of calls reaches from a new game:
    the board is a 6x6 square, no stack is higher than [MAX_HEIGHT] and the
    game holds 36 pieces. *)
Lemma run_calls_invariant a b cs :
  square (_game_board (run_calls cs (new_game a b)))
  ∧ length (_game_board (run_calls cs (new_game a b))) = 6%nat
  ∧ (∀ c, Q.get_length (cell (run_calls cs (new_game a b)) c) ≤ MAX_HEIGHT)
  ∧ total_pieces (run_calls cs (new_game a b)) = 36.
Proof.
  assert (Hgen : ∀ g, square (_game_board g) →
            (∀ c, Q.get_length (cell g c) ≤ MAX_HEIGHT) →
            square (_game_board (run_calls cs g))
            ∧ length (_game_board (run_calls cs g)) = length (_game_board g)
            ∧ (∀ c, Q.get_length (cell (run_calls cs g) c) ≤ MAX_HEIGHT)
            ∧ total_pieces (run_calls cs g) = total_pieces g).
  { induction cs as [|c cs IH]; intros g Hsq Hlow; simpl; [done|].
    destruct (run_call c g) as [o g1] eqn:E. simpl.
    pose proof (run_call_shape _ _ _ _ Hsq E) as (Hlen & Hsq1 & _).
    pose proof (run_call_total _ _ _ _ Hsq E) as Htot.
    pose proof (run_call_heights _ _ _ _ Hsq E Hlow) as Hlow1.
    destruct (IH g1 (Hsq1 Hsq) Hlow1) as (? & ? & ? & ?).
    split_and!; [done|congruence|done|congruence]. }
  destruct (Hgen (new_game a b) (new_game_square a b) (new_game_heights a b))
    as (H1 & H2 & H3 & H4).
  split_and!; [done|by rewrite H2|done|by rewrite H4].
Qed.

Lemma wins_set_turn g t r : wins (set_turn g t) r ↔ wins g r.
Proof. by destruct r. Qed.

Lemma turn_next_turn_named g : _player_turn (next_turn g) ≠ None.
Proof. by rewrite turn_next_turn. Qed.

(** The position before and after the last move of [winning_game]. *)
Example before_win_position :
  map (map data) (_game_board before_win)
  = [ [["R"; "R"; "R"; "R"; "R"]; []; []; ["R"]; ["R"]; []];
      [[]; []; []; []; []; []];
      [[]; []; []; []; []; []];
      [["R"; "R"; "R"; "R"; "R"]; []; ["R"]; []; []; []];
      [[]; []; ["R"; "R"; "R"; "R"; "R"]; []; []; []];
      [["G"; "G"]; []; []; []; []; []] ]
  ∧ _captured (_first_player before_win) = 16
  ∧ _player_turn before_win = Some "A".
Proof. vm_compute. done. Qed.

Lemma winning_move_run :
  run_call winning_move before_win = (Ret (PyStr "Wins"), after_win).
Proof. vm_compute. reflexivity. Qed.

Lemma after_win_turn : _player_turn after_win = None.
Proof. vm_compute. reflexivity. Qed.

(** ** Geometry of the moves that are carried out *)

Lemma accepted_move_geometry g name p1 p2 k o g' :
  square (_game_board g) →
  move_piece name p1 p2 k g = (o, g') → completed o →
  straight_line p1 p2 k ∧ 0 ≤ k.
Proof.
  intros Hsq Hrun Hdone. destruct p1 as [r1 c1], p2 as [r2 c2].
  apply completed_inv in Hdone as [HnF HnR].
  apply move_piece_inv in Hrun as [[_ [?|[e ?]]]|Hok];
    [done|by destruct (HnR e)| |done].
  destruct Hok as (r & _ & _ & _ & _ & _ & Hmv & _).
  apply check_move_spec in Hmv. split; [done|].
  destruct Hmv as [[_ <-]|[_ <-]]; simpl; lia.
Qed.

(** ** Landing and height reduction *)

Lemma land_run g c r :
  square (_game_board g) →
  check_position g (landing c).1 (landing c).2 = true →
  match c with
  | ReservedMove _ _ => True
  | MovePiece _ p1 _ _ => check_position g p1.1 p1.2 = true
  end →
  land r c g
  = (Ret tt,
     match c with
     | ReservedMove _ p => placed g r (at_pos p.1 p.2)
     | MovePiece _ p1 p2 k =>
         transferred g (at_pos p1.1 p1.2) (at_pos p2.1 p2.2) k
     end).
Proof.
  intros Hsq Hdst Hsrc. destruct c as [n p|n p1 p2 k]; simpl in *.
  - unfold bind at 1. rewrite board_item_checked by done.
    unfold bind, get, enqueue, player_update. by rewrite deref_store.
  - unfold bind at 1. rewrite board_item_checked by done.
    unfold bind at 1. unfold remove_items.
    destruct (Q.remove_items (cell g (at_pos p1.1 p1.2)) k)
      as [moved q] eqn:Hrm.
    unfold bind at 1. rewrite board_item_checked;
      [|by apply same_shape_store
       |by rewrite (check_position_shape g) by apply same_shape_store].
    unfold add_items, transferred. by rewrite Hrm.
Qed.

(** What the height reduction after a landing leaves, read in the final
    state [g'] of the call. *)
Lemma reduction_effects g gl r dst g' :
  square (_game_board g) → same_shape g gl →
  inside (length (_game_board g)) dst →
  (∀ c, cell g' c = cell (settle gl r dst) c) →
  (∀ r', deref g' r' = deref (settle gl r dst) r') →
  let s := data (cell gl dst) in
  let shed := take (Z.to_nat (Z.of_nat (length s) - MAX_HEIGHT)) s in
  s = (shed ++ data (cell g' dst))%list
  ∧ Q.get_length (cell g' dst) = Z.min (Q.get_length (cell gl dst)) MAX_HEIGHT
  ∧ _reserve (deref g' r)
    = _reserve (deref gl r) + own_count (_piece (deref gl r)) shed
  ∧ _captured (deref g' r)
    = _captured (deref gl r) + foreign_count (_piece (deref gl r)) shed
  ∧ (∀ r', r' ≠ r → deref g' r' = deref gl r')
  ∧ (∀ c', c' ≠ dst → cell g' c' = cell gl c').
Proof.
  intros Hsq (Hlen & Hsql & _) Hin Hcell Hderef. simpl.
  assert (Hinl : inside (length (_game_board gl)) dst) by (by rewrite Hlen).
  fold (excess (data (cell gl dst))).
  unfold Q.get_length. rewrite !Hcell, !Hderef.
  rewrite cell_settle, deref_settle by auto.
  split_and!; try done.
  - by rewrite take_drop.
  - apply excess_spec.
  - intros r' Hne. rewrite Hderef. by apply deref_settle_ne.
  - intros c' Hne. rewrite Hcell. by apply cell_settle_ne.
Qed.

(** * The claims *)

(** C1 (stack-height reduction).  On the 6x6 board, a call of a player of
    the dictionary whose preconditions hold is carried out.  In every call
    that is carried out, a reserve placement or a move, the pieces land on
    the target cell, then [remove_pieces] runs there for the caller and its
    result is the board and the players the call leaves: the stack that
    landed splits into the pieces shed from its bottom, as many as it was
    above [MAX_HEIGHT], followed by the stack that stays, which is
    [MAX_HEIGHT] high when pieces were shed; the caller's reserve grows by
    the number of shed pieces of the caller's symbol and the caller's
    captured count by the number of the others, counted from what the
    caller had when the pieces landed (the reserve one less than before in
    a placement, both as before in a move); the other player and the other
    cells are left as the landing left them. *)
Theorem C1_height_reduction g c o g' r :
  board_6x6 g → _players g !! caller c = Some r → run_call c g = (o, g') →
  (allowed g r c → completed o)
  ∧ (completed o →
     ∃ gl g2,
       land r c g = (Ret tt, gl)
       ∧ remove_pieces (caller c) (landing c).1 (landing c).2 gl
         = (Ret tt, g2)
       ∧ _game_board g' = _game_board g2
       ∧ _first_player g' = _first_player g2
       ∧ _second_player g' = _second_player g2
       ∧ (let dst := at_pos (landing c).1 (landing c).2 in
          let s := data (cell gl dst) in
          let shed := take (Z.to_nat (Z.of_nat (length s) - MAX_HEIGHT)) s in
          let piece := _piece (deref g r) in
          s = (shed ++ data (cell g' dst))%list
          ∧ Q.get_length (cell g' dst)
            = Z.min (Q.get_length (cell gl dst)) MAX_HEIGHT
          ∧ _reserve (deref g' r)
            = _reserve (deref gl r) + own_count piece shed
          ∧ _captured (deref g' r)
            = _captured (deref gl r) + foreign_count piece shed
          ∧ _reserve (deref gl r)
            = _reserve (deref g r)
              - match c with ReservedMove _ _ => 1 | MovePiece _ _ _ _ => 0 end
          ∧ _captured (deref gl r) = _captured (deref g r)
          ∧ (∀ r', r' ≠ r → deref g' r' = deref g r')
          ∧ (∀ c', c' ≠ dst → cell g' c' = cell gl c'))).
Proof.
  intros Hb Hr Hrun. pose proof Hb as [Hsix Hsq]. split.
  - intros Hall. destruct c as [n [row column]|n [r1 c1] [r2 c2] k];
      simpl in Hr, Hall; unfold run_call in Hrun.
    + destruct Hall as (Ht & Hres & Hin).
      apply (in_bounds_check g (row, column) Hb) in Hin. simpl in Hin.
      rewrite (reserved_move_run g n row column r Hsq Hr) in Hrun.
      rewrite bool_decide_eq_false_2 in Hrun
        by (intros H; apply H; congruence).
      rewrite bool_decide_eq_false_2 in Hrun by lia.
      rewrite Hin in Hrun. simpl in Hrun. simplify_eq. by left.
    + destruct Hall as (Ht & Hin1 & Hin2 & Hk & Hk1 & Hline & Htop).
      apply (in_bounds_check g (r1, c1) Hb) in Hin1.
      apply (in_bounds_check g (r2, c2) Hb) in Hin2.
      apply check_move_spec in Hline. simpl in Hin1, Hin2, Hk, Htop.
      rewrite (move_piece_run g n r1 c1 r2 c2 k r Hsq Hr) in Hrun.
      simpl in Hrun.
      rewrite bool_decide_eq_false_2 in Hrun
        by (intros H; apply H; congruence).
      rewrite Hin1, Hin2 in Hrun. simpl in Hrun.
      rewrite bool_decide_eq_false_2 in Hrun by lia.
      rewrite Hline in Hrun. simpl in Hrun.
      unfold Q.display_top in Hrun. rewrite Htop in Hrun.
      rewrite bool_decide_eq_false_2 in Hrun by (intros H; by apply H).
      destruct (won _ r); simplify_eq; unfold completed; auto.
  - intros Hdone. apply completed_inv in Hdone as [HnF HnR].
    assert (Hstage : ∃ gl,
      land r c g = (Ret tt, gl)
      ∧ same_shape g gl
      ∧ check_position g (landing c).1 (landing c).2 = true
      ∧ (g' = next_turn (settle gl r (at_pos (landing c).1 (landing c).2))
         ∨ g' = set_turn
                  (next_turn
                     (settle gl r (at_pos (landing c).1 (landing c).2)))
                  None)
      ∧ _piece (deref gl r) = _piece (deref g r)
      ∧ _reserve (deref gl r)
        = _reserve (deref g r)
          - match c with ReservedMove _ _ => 1 | MovePiece _ _ _ _ => 0 end
      ∧ _captured (deref gl r) = _captured (deref g r)
      ∧ ∀ r', r' ≠ r → deref gl r' = deref g r').
    { destruct c as [n [row column]|n [r1 c1] [r2 c2] k];
        simpl in Hr; unfold run_call in Hrun.
      - apply reserved_move_inv in Hrun as [[_ [?|?]]|Hok];
          [done|by destruct (HnR KeyError)| |done].
        destruct Hok as (r0 & Hr0 & _ & Hres & Hpos & _ & ->).
        assert (r0 = r) as -> by congruence.
        exists (placed g r (at_pos row column)). split_and!.
        + exact (land_run g (ReservedMove n (row, column)) r Hsq Hpos I).
        + apply same_shape_placed.
        + exact Hpos.
        + by left.
        + by rewrite deref_placed.
        + rewrite deref_placed. unfold P.remove_reserved. simpl.
          by rewrite bool_decide_eq_true_2 by lia.
        + by rewrite deref_placed.
        + intros r' Hne. by apply deref_placed_ne.
      - apply move_piece_inv in Hrun as [[_ [?|[e ?]]]|Hok];
          [done|by destruct (HnR e)| |done].
        destruct Hok as (r0 & Hr0 & _ & Hp1 & Hp2 & _ & _ & _ & Hend).
        simpl in Hend. assert (r0 = r) as -> by congruence.
        exists (transferred g (at_pos r1 c1) (at_pos r2 c2) k).
        assert (Hd : ∀ r', deref (transferred g (at_pos r1 c1)
                                    (at_pos r2 c2) k) r' = deref g r')
          by (by intros [|]).
        split_and!.
        + exact (land_run g (MovePiece n (r1, c1) (r2, c2) k) r
                   Hsq Hp2 Hp1).
        + apply same_shape_transferred.
        + exact Hp2.
        + destruct Hend as [(_ & _ & ->)|(_ & _ & ->)]; auto.
        + by rewrite Hd.
        + rewrite Hd. lia.
        + by rewrite Hd.
        + intros r' _. apply Hd. }
    destruct Hstage
      as (gl & Hland & Hsh & Hpos & Hg' & Hpiece & Hres & Hcap & Hoth).
    set (dst := at_pos (landing c).1 (landing c).2) in *.
    pose proof (check_position_inside _ _ _ Hpos) as Hin. fold dst in Hin.
    assert (Hcell : ∀ c', cell g' c' = cell (settle gl r dst) c').
    { intros c'. destruct Hg' as [-> | ->];
        by rewrite ?cell_set_turn, cell_next_turn. }
    assert (Hderef : ∀ r', deref g' r' = deref (settle gl r dst) r').
    { intros r'. destruct Hg' as [-> | ->];
        by rewrite ?deref_set_turn, deref_next_turn. }
    assert (Hboard : _game_board g' = _game_board (settle gl r dst)).
    { destruct Hg' as [-> | ->]; [|unfold set_turn; simpl];
        apply board_next_turn. }
    destruct (reduction_effects g gl r dst g' Hsq Hsh Hin Hcell Hderef)
      as (E1 & E2 & E3 & E4 & E5 & E6).
    exists gl, (settle gl r dst). split_and!; try done.
    + pose proof Hsh as (_ & Hsql & Hd).
      apply remove_pieces_run; [auto|by rewrite Hd|].
      by rewrite (check_position_shape g gl).
    + apply (Hderef FirstP).
    + apply (Hderef SecondP).
    + cbv zeta. rewrite <- Hpiece. split_and!; try done.
      intros r' Hne. rewrite E5 by done. by apply Hoth.
Qed.

Lemma C1_height_reduction_witness :
  completed (run_call (MovePiece "A" (2, 2) (2, 0) 2)
               (run_calls (take 12 overflow_game) alice_bob)).1
  ∧ ∃ gl,
      land FirstP (MovePiece "A" (2, 2) (2, 0) 2)
        (run_calls (take 12 overflow_game) alice_bob) = (Ret tt, gl)
      ∧ _reserve (deref (run_call (MovePiece "A" (2, 2) (2, 0) 2)
                           (run_calls (take 12 overflow_game) alice_bob)).2
                    FirstP)
        = _reserve (deref gl FirstP)
          + own_count "R"
              (take (Z.to_nat (Z.of_nat (length (data (cell gl (2%nat, 0%nat))))
                               - MAX_HEIGHT))
                 (data (cell gl (2%nat, 0%nat)))).
Proof.
  set (g := run_calls (take 12 overflow_game) alice_bob).
  set (c := MovePiece "A" (2, 2) (2, 0) 2).
  assert (Hb : board_6x6 g).
  { destruct (run_calls_invariant ("A", "R") ("B", "G")
                (take 12 overflow_game)) as (Hsq & Hsix & _).
    split; [exact Hsix | exact Hsq]. }
  assert (Hr : _players g !! caller c = Some FirstP)
    by (vm_compute; reflexivity).
  assert (Hrun : run_call c g = ((run_call c g).1, (run_call c g).2))
    by (by destruct (run_call c g)).
  destruct (C1_height_reduction g c _ _ FirstP Hb Hr Hrun) as [Hacc Heff].
  assert (Hall : allowed g FirstP c).
  { unfold allowed, c. split_and!.
    - vm_compute. reflexivity.
    - unfold in_bounds. simpl. lia.
    - unfold in_bounds. simpl. lia.
    - vm_compute. discriminate.
    - lia.
    - left. simpl. lia.
    - vm_compute. reflexivity. }
  pose proof (Hacc Hall) as Hdone. split; [exact Hdone|].
  destruct (Heff Hdone) as (gl & g2 & Hland & _ & _ & _ & _ & Hfacts).
  destruct Hfacts as (_ & _ & Hres & _).
  exists gl. split; [exact Hland|].
  assert (Hp : _piece (deref g FirstP) = "R") by (vm_compute; reflexivity).
  rewrite Hp in Hres. exact Hres.
Defined.

(** C2 (win condition).  A call that is carried out was made by a player of
    the dictionary.  A reserve placement returns [None] and leaves the turn
    with a player: no win is looked for.  A move returns "Wins" with the
    turn set to [None] when, in the state the move leaves, the caller has at
    least 18 captured pieces and the caller's symbol on top of every stack
    that is not empty; it returns "successfully moved" with the turn left
    with a player when that fails.  [check_win] itself returns whether the
    two conditions hold for the player it is asked about. *)
Theorem C2_win_condition g c o g' :
  square (_game_board g) → run_call c g = (o, g') → completed o →
  ∃ r, _players g !! caller c = Some r
    ∧ match c with
      | ReservedMove _ _ => o = Ret PyNone ∧ _player_turn g' ≠ None
      | MovePiece _ _ _ _ =>
          (wins g' r ∧ o = Ret (PyStr "Wins") ∧ _player_turn g' = None)
          ∨ (¬ wins g' r ∧ o = Ret (PyStr "successfully moved")
             ∧ _player_turn g' ≠ None)
      end
    ∧ ∃ b, check_win (caller c) g' = (Ret b, g') ∧ (b = true ↔ wins g' r).
Proof.
  intros Hsq Hrun Hdone.
  pose proof (run_call_shape _ _ _ _ Hsq Hrun) as (_ & Hsq' & Hd').
  assert (Hcheck : ∀ r, _players g !! caller c = Some r →
            ∃ b, check_win (caller c) g' = (Ret b, g')
                 ∧ (b = true ↔ wins g' r)).
  { intros r Hr. exists (won g' r). split; [|apply won_spec].
    apply check_win_run; [auto|by rewrite Hd']. }
  apply completed_inv in Hdone as [HnF HnR].
  destruct c as [n [row column]|n [r1 c1] [r2 c2] k];
    unfold run_call in Hrun; simpl in Hcheck |- *.
  - apply reserved_move_inv in Hrun as [[_ [?|?]]|Hok];
      [done|by destruct (HnR KeyError)| |done].
    destruct Hok as (r & Hr & _ & _ & _ & -> & ->).
    exists r. split_and!; [done|done|apply turn_next_turn_named|auto].
  - apply move_piece_inv in Hrun as [[_ [?|[e ?]]]|Hok];
      [done|by destruct (HnR e)| |done].
    destruct Hok as (r & Hr & _ & _ & _ & _ & _ & _ & Hend). simpl in Hend.
    exists r. split_and!; [done| |auto].
    destruct Hend as [(Hw & -> & ->)|(Hw & -> & ->)].
    + left. split_and!; [|done..].
      apply wins_set_turn. by apply won_spec.
    + right. split_and!; [|done|apply turn_next_turn_named].
      rewrite <- won_spec. congruence.
Qed.

Lemma C2_win_condition_witness :
  wins (run_call winning_move before_win).2 FirstP
  ∧ _player_turn (run_call winning_move before_win).2 = None.
Proof.
  destruct (C2_win_condition before_win winning_move (Ret (PyStr "Wins"))
              (run_call winning_move before_win).2)
    as (r & Hr & Hcase & _).
  - apply run_calls_invariant.
  - vm_compute. reflexivity.
  - right. right. reflexivity.
  - assert (r = FirstP) as -> by (vm_compute in Hr; congruence).
    destruct Hcase as [(Hw & _ & Ht)|(_ & Hno & _)]; [|discriminate Hno].
    split; [exact Hw | exact Ht].
Defined.

(** C3 (move geometry), where the code departs from the claim: a move of
    zero pieces from a cell to itself passes every check, is carried out and
    hands the turn to the other player. *)
Theorem C3_zero_count_move_accepted :
  move_piece "A" (0, 0) (0, 0) 0 alice_bob
  = (Ret (PyStr "successfully moved"), set_turn alice_bob (Some "B")).
Proof. vm_compute. reflexivity. Qed.

(** C4 (move transfer).  A move that is carried out takes a number of
    pieces between 0 and the height of the source stack; the two queue calls
    leave the source stack without its top [k] pieces and the target stack
    with those pieces on top in the same order, so the source is [k] shorter
    and the target [k] longer; then [remove_pieces] runs on the target for
    the caller, and in the end the target holds the smaller of [MAX_HEIGHT]
    and its length after the append, while the source stays [k] shorter. *)
Theorem C4_move_transfer g name start_row start_column end_row end_column
    k o g' :
  square (_game_board g) →
  move_piece name (start_row, start_column) (end_row, end_column) k g
  = (o, g') →
  completed o →
  let src := at_pos start_row start_column in
  let dst := at_pos end_row end_column in
  let sf := data (cell g src) in
  let st := data (cell g dst) in
  let rest := (length sf - Z.to_nat k)%nat in
  ∃ gm g2,
    0 ≤ k ≤ Z.of_nat (length sf)
    ∧ (moved ←' remove_items src k; add_items dst moved) g = (Ret tt, gm)
    ∧ (src ≠ dst →
         data (cell gm src) = take rest sf
         ∧ data (cell gm dst) = (st ++ drop rest sf)%list)
    ∧ (src = dst → k = 0 ∧ data (cell gm src) = sf)
    ∧ Q.get_length (cell gm src) = Q.get_length (cell g src) - k
    ∧ Q.get_length (cell gm dst) = Q.get_length (cell g dst) + k
    ∧ remove_pieces name end_row end_column gm = (Ret tt, g2)
    ∧ _game_board g' = _game_board g2
    ∧ Q.get_length (cell g' dst)
      = Z.min MAX_HEIGHT (Q.get_length (cell g dst) + k)
    ∧ (src ≠ dst ∨ Q.get_length (cell g src) ≤ MAX_HEIGHT →
         Q.get_length (cell g' src) = Q.get_length (cell g src) - k).
Proof.
  intros Hsq Hrun Hdone. simpl.
  apply completed_inv in Hdone as [HnF HnR].
  apply move_piece_inv in Hrun as [[_ [?|[e ?]]]|Hok];
    [done|by destruct (HnR e)| |done].
  destruct Hok as (r & Hr & Hturn & Hp1 & Hp2 & Hk & Hmv & Htop & Hend).
  simpl in Hend.
  set (src := at_pos start_row start_column) in *.
  set (dst := at_pos end_row end_column) in *.
  set (sf := data (cell g src)) in *.
  set (st := data (cell g dst)) in *.
  pose proof (check_position_inside _ _ _ Hp1) as Hin1.
  pose proof (check_position_inside _ _ _ Hp2) as Hin2.
  fold src in Hin1. fold dst in Hin2.
  apply check_position_spec in Hp1 as Hb1.
  apply check_position_spec in Hp2 as Hb2.
  apply check_move_spec in Hmv as Hline.
  unfold Q.get_length in Hk |- *. fold sf in Hk |- *. fold st.
  assert (Hk0 : 0 ≤ k) by (destruct Hline as [[_ <-]|[_ <-]]; lia).
  assert (Heq : src = dst ↔ k = 0).
  { split.
    - intros Hsd. apply at_pos_inj in Hsd as [-> ->]; [|lia..].
      destruct Hline as [[_ <-]|[_ <-]]; lia.
    - intros ->. unfold src, dst, at_pos.
      destruct Hline as [[H1 H2]|[H1 H2]]; simpl in *;
        f_equal; f_equal; lia. }
  set (gm := transferred g src dst k).
  pose proof (same_shape_transferred g src dst k) as (Hlen & Hsqm & Hdm).
  fold gm in Hlen, Hsqm, Hdm.
  assert (Hsrc : src ≠ dst →
            data (cell gm src) = take (length sf - Z.to_nat k) sf
            ∧ data (cell gm dst)
              = (st ++ drop (length sf - Z.to_nat k) sf)%list).
  { intros Hne. unfold gm.
    rewrite cell_transferred_src, cell_transferred_dst by done.
    fold sf st. unfold slice_to, slice_from.
    rewrite py_bound_top; [done|lia|]. intros ->. by apply Hne, Heq. }
  assert (Hsame : src = dst → data (cell gm src) = sf).
  { intros Hsd. replace (cell gm src) with (cell gm dst) by (by rewrite Hsd).
    unfold gm. rewrite cell_transferred_same by done. apply slice_split. }
  assert (Hlsrc : Z.of_nat (length (data (cell gm src)))
                  = Z.of_nat (length sf) - k).
  { destruct (decide (src = dst)) as [Hsd|Hne].
    - rewrite Hsame by done. apply Heq in Hsd. lia.
    - destruct (Hsrc Hne) as [-> _]. rewrite length_take. lia. }
  assert (Hldst : Z.of_nat (length (data (cell gm dst)))
                  = Z.of_nat (length st) + k).
  { destruct (decide (src = dst)) as [Hsd|Hne].
    - rewrite <- Hsd at 1. rewrite Hsame by done.
      apply Heq in Hsd as Hz. unfold st, sf. rewrite Hsd. lia.
    - destruct (Hsrc Hne) as [_ ->]. rewrite length_app, length_drop. lia. }
  assert (Hfin : ∀ c, cell g' c = cell (settle gm r dst) c).
  { intros c. destruct Hend as [(_ & _ & ->)|(_ & _ & ->)];
      by rewrite ?cell_set_turn, cell_next_turn. }
  assert (Hinm : inside (length (_game_board gm)) dst) by (by rewrite Hlen).
  assert (Hfdst : Z.of_nat (length (data (cell g' dst)))
                  = Z.min MAX_HEIGHT (Z.of_nat (length st) + k)).
  { rewrite Hfin, cell_settle by auto. rewrite excess_spec. lia. }
  exists gm, (settle gm r dst). split_and!; try lia.
  - by apply transferred_run.
  - exact Hsrc.
  - intros Hsd. split; [by apply Heq | by apply Hsame].
  - apply remove_pieces_run; [auto|by rewrite Hdm|].
    by rewrite (check_position_shape g) by apply same_shape_transferred.
  - destruct Hend as [(_ & _ & ->)|(_ & _ & ->)]; [unfold set_turn; simpl|];
      apply board_next_turn.
  - intros [Hne|Hlow].
    + rewrite Hfin, cell_settle_ne by done. done.
    + destruct (decide (src = dst)) as [Hsd|Hne].
      * rewrite Hsd at 1. rewrite Hfdst. apply Heq in Hsd as Hz.
        unfold st. rewrite <- Hsd. fold sf. lia.
      * rewrite Hfin, cell_settle_ne by done. done.
Qed.

Lemma C4_move_transfer_witness :
  ∃ gm,
    (moved ←' remove_items (0%nat, 0%nat) 1; add_items (0%nat, 1%nat) moved)
      alice_bob = (Ret tt, gm)
    ∧ data (cell gm (0%nat, 0%nat)) = []
    ∧ data (cell gm (0%nat, 1%nat)) = ["R"; "R"].
Proof.
  destruct (C4_move_transfer alice_bob "A" 0 0 0 1 1
              (Ret (PyStr "successfully moved"))
              (move_piece "A" (0, 0) (0, 1) 1 alice_bob).2)
    as (gm & g2 & _ & Hrun & Hsrc & _).
  - repeat constructor.
  - vm_compute. reflexivity.
  - right. left. reflexivity.
  - exists gm. split; [exact Hrun|].
    destruct Hsrc as [H1 H2]; [discriminate|].
    split; [exact H1 | exact H2].
Defined.

(** C5, as stated, fails: a placement on a stack that is five high with an
    own piece at the bottom gives that piece back to the reserve, so the
    reserve count after the call equals the count before it. *)
Lemma C5_counterexample :
  ¬ (∀ cs position g',
       let g := run_calls cs alice_bob in
       reserved_move "A" position g = (Ret PyNone, g') →
       _reserve (_first_player g') = _reserve (_first_player g) - 1).
Proof.
  intros H.
  assert (Hw : reserved_move "A" (2, 0) before_overflow
               = (Ret PyNone, (reserved_move "A" (2, 0) before_overflow).2) →
               _reserve (_first_player
                           (reserved_move "A" (2, 0) before_overflow).2)
               = _reserve (_first_player before_overflow) - 1)
    by exact (H overflow_game (2, 0) _).
  assert (E : reserved_move "A" (2, 0) before_overflow
              = (Ret PyNone, (reserved_move "A" (2, 0) before_overflow).2))
    by (vm_compute; reflexivity).
  specialize (Hw E). vm_compute in Hw. discriminate Hw.
Qed.

(** C5 amended (reserve placement).  For a player of the dictionary on the
    6x6 board, [reserved_move] returns [None] exactly when the player holds
    the turn, has a positive reserve and the position is on the board.  A
    placement that returns [None] first puts the player's piece on top of
    the target stack and takes exactly one piece from the reserve, then runs
    [remove_pieces] on the target cell for that player, then runs
    [switch_turns]: in the end the placed piece is on top of the target
    stack, the reserve is one less than before plus the player's own pieces
    shed by the height reduction, and the turn is with the other player. *)
Theorem C5_reserve_placement g name row column r :
  board_6x6 g → two_players g → _players g !! name = Some r →
  ((reserved_move name (row, column) g).1 = Ret PyNone ↔
     _player_turn g = Some name ∧ 0 < _reserve (deref g r)
     ∧ in_bounds (row, column))
  ∧ ∀ g', reserved_move name (row, column) g = (Ret PyNone, g') →
      ∃ g1 g2,
        let c := at_pos row column in
        let piece := _piece (deref g r) in
        let s1 := (data (cell g c) ++ [piece])%list in
        let shed := take (Z.to_nat (Z.of_nat (length s1) - MAX_HEIGHT)) s1 in
        (enqueue c piece ;;' player_update r P.remove_reserved) g
          = (Ret tt, g1)
        ∧ data (cell g1 c) = s1
        ∧ _reserve (deref g1 r) = _reserve (deref g r) - 1
        ∧ _captured (deref g1 r) = _captured (deref g r)
        ∧ remove_pieces name row column g1 = (Ret tt, g2)
        ∧ switch_turns g2 = (Ret tt, g')
        ∧ last (data (cell g' c)) = Some piece
        ∧ _reserve (deref g' r)
          = _reserve (deref g r) - 1 + own_count piece shed
        ∧ _captured (deref g' r)
          = _captured (deref g r) + foreign_count piece shed
        ∧ (∀ c', c' ≠ c → cell g' c' = cell g c')
        ∧ deref g' (other r) = deref g (other r)
        ∧ _player_turn g' = Some (_name (deref g (other r)))
        ∧ _player_turn g' ≠ _player_turn g.
Proof.
  intros [Hsix Hsq] Htwo Hr.
  assert (Hbounds : check_position g row column = true
                    ↔ in_bounds (row, column)).
  { rewrite check_position_spec, Hsix. unfold in_bounds. simpl. lia. }
  split.
  - rewrite (reserved_move_run g name row column r Hsq Hr).
    rewrite <- Hbounds. split.
    + intros Hrun.
      case_bool_decide as Ht; [done|].
      case_bool_decide as Hres; [done|].
      destruct (check_position g row column); [|done].
      split_and!; [done|lia|done].
    + intros (Ht & Hres & Hpos).
      rewrite bool_decide_eq_false_2 by (intros H; apply H; congruence).
      rewrite bool_decide_eq_false_2 by lia.
      by rewrite Hpos.
  - intros g' Hrun.
    apply reserved_move_inv in Hrun as [[_ [[=]|[=]]]|Hok]; [|done].
    destruct Hok as (r0 & Hr0 & Hturn & Hres & Hpos & _ & ->).
    assert (r0 = r) as -> by congruence.
    pose proof (check_position_inside _ _ _ Hpos) as Hin.
    set (c := at_pos row column) in *.
    pose proof (same_shape_placed g r c) as (Hlen1 & Hsq1 & Hd1).
    assert (Hin1 : inside (length (_game_board (placed g r c))) c)
      by (by rewrite Hlen1).
    exists (placed g r c), (settle (placed g r c) r c). simpl.
    fold (excess (data (cell g c) ++ [_piece (deref g r)])).
    rewrite cell_next_turn, !deref_next_turn.
    rewrite cell_settle, !deref_settle by auto.
    rewrite cell_placed, !deref_placed by done.
    split_and!.
    + unfold bind, enqueue, player_update. by rewrite deref_store.
    + done.
    + simpl. rewrite bool_decide_eq_true_2 by lia. done.
    + done.
    + apply remove_pieces_run; [auto|by rewrite Hd1|].
      by rewrite (check_position_shape g) by apply same_shape_placed.
    + apply switch_turns_run.
    + rewrite last_drop; [by rewrite last_snoc|].
      unfold excess, MAX_HEIGHT. rewrite length_app. simpl. lia.
    + simpl. rewrite bool_decide_eq_true_2 by lia. done.
    + done.
    + intros c' Hne. rewrite cell_next_turn, cell_settle_ne by done.
      by apply cell_placed_ne.
    + rewrite deref_settle_ne, deref_placed_ne; by destruct r.
    + eapply turn_passes; eauto.
      * intros r'. by rewrite name_settle, name_placed.
      * by rewrite turn_settle, turn_placed.
    + eapply turn_passes; eauto.
      * intros r'. by rewrite name_settle, name_placed.
      * by rewrite turn_settle, turn_placed.
Qed.

Lemma C5_reserve_placement_witness :
  ∃ g', reserved_move "A" (2, 3) before_overflow = (Ret PyNone, g')
        ∧ last (data (cell g' (2%nat, 3%nat))) = Some "R"
        ∧ _reserve (deref g' FirstP) = 1
        ∧ _player_turn g' = Some "B".
Proof.
  destruct (C5_reserve_placement before_overflow "A" 2 3 FirstP)
    as [_ Hdo].
  - split; [vm_compute; reflexivity | apply run_calls_invariant].
  - vm_compute. split; [discriminate | reflexivity].
  - vm_compute. reflexivity.
  - exists (reserved_move "A" (2, 3) before_overflow).2.
    assert (E : reserved_move "A" (2, 3) before_overflow
                = (Ret PyNone, (reserved_move "A" (2, 3) before_overflow).2))
      by (vm_compute; reflexivity).
    split; [exact E|].
    destruct (Hdo _ E)
      as (g1 & g2 & _ & _ & _ & _ & _ & _ & Htop & Hres & _ & _ & _ & Ht & _).
    split; [exact Htop|]. split; [exact Hres | exact Ht].
Defined.

(** C6 (atomic rejection), where the code departs from the claim: the move
    of zero pieces from a cell to itself fails the precondition that a move
    goes along a line of at least one cell, yet it is carried out and hands
    the turn to the other player. *)
Theorem C6_zero_move_not_rejected :
  refused alice_bob FirstP (MovePiece "A" (0, 0) (0, 0) 0)
  ∧ run_call (MovePiece "A" (0, 0) (0, 0) 0) alice_bob
    = (Ret (PyStr "successfully moved"), set_turn alice_bob (Some "B"))
  ∧ _player_turn (run_call (MovePiece "A" (0, 0) (0, 0) 0) alice_bob).2
    ≠ _player_turn alice_bob.
Proof.
  split_and!.
  - simpl. do 4 right. left. intros [Hk _]. lia.
  - vm_compute. reflexivity.
  - vm_compute. discriminate.
Qed.

(** C7 (no raising), where the code departs from the claim: both moves raise
    [KeyError] for a name that is not in the dictionary, although
    [show_reserve] and [show_captured] answer 0 for it; [show_pieces] raises
    [IndexError] for a position off the board, and a move of zero pieces on
    an empty cell raises [IndexError]. *)
Theorem C7_unknown_player_raises :
  reserved_move "Zed" (0, 0) alice_bob = (Raise KeyError, alice_bob)
  ∧ move_piece "Zed" (0, 0) (0, 1) 1 alice_bob = (Raise KeyError, alice_bob)
  ∧ show_reserve "Zed" alice_bob = (Ret 0, alice_bob)
  ∧ show_captured "Zed" alice_bob = (Ret 0, alice_bob)
  ∧ show_pieces (6, 0) alice_bob = (Raise IndexError, alice_bob)
  ∧ (let g := (run_call (MovePiece "A" (0, 0) (0, 1) 1) alice_bob).2 in
     let g := (run_call (MovePiece "B" (1, 0) (1, 1) 1) g).2 in
     move_piece "A" (0, 0) (0, 0) 0 g = (Raise IndexError, g)).
Proof. vm_compute. done. Qed.

(** C8, as stated, fails: after a move that wins the turn is with neither
    player.  In the game [winning_game] the move [winning_move] is carried
    out and leaves the turn at [None]. *)
Lemma C8_counterexample :
  ¬ (∀ cs c,
       let g := run_calls cs alice_bob in
       completed (run_call c g).1 →
       _player_turn (run_call c g).2 = Some "A"
       ∨ _player_turn (run_call c g).2 = Some "B").
Proof.
  intros H.
  assert (Hw : completed (run_call winning_move before_win).1 →
               _player_turn (run_call winning_move before_win).2 = Some "A"
               ∨ _player_turn (run_call winning_move before_win).2 = Some "B")
    by exact (H winning_game winning_move).
  rewrite winning_move_run in Hw. cbn [fst snd] in Hw.
  rewrite after_win_turn in Hw.
  destruct Hw as [Hw|Hw]; [|discriminate Hw|discriminate Hw].
  right. right. reflexivity.
Qed.

(** C8 amended (turn alternation).  With two players of different names, a
    call that is not carried out leaves the turn as it was; a reserve
    placement or a move that is carried out without winning was made by the
    player whose turn it was and passes the turn to the other player; a move
    that wins sets the turn to [None].  The two names and the dictionary
    stay as they are, so the same holds for the next call. *)
Theorem C8_turn_alternation g c o g' :
  square (_game_board g) → two_players g → run_call c g = (o, g') →
  (¬ completed o → _player_turn g' = _player_turn g)
  ∧ (o = Ret PyNone ∨ o = Ret (PyStr "successfully moved") →
       ∃ r, _players g !! caller c = Some r
            ∧ _player_turn g = Some (caller c)
            ∧ caller c = _name (deref g r)
            ∧ _player_turn g' = Some (_name (deref g (other r)))
            ∧ _player_turn g' ≠ _player_turn g)
  ∧ (o = Ret (PyStr "Wins") → _player_turn g' = None)
  ∧ two_players g'.
Proof.
  intros Hsq Htwo Hrun.
  pose proof (run_call_stages _ _ _ _ Hsq Hrun) as Hst.
  split_and!.
  - intros Hnot. by rewrite (unfinished_unchanged _ _ _ _ Hsq Hrun Hnot).
  - intros Ho.
    destruct Hst as [[_ Hnot]|Hst];
      [exfalso; apply Hnot; unfold completed; tauto|].
    destruct Hst
      as (r & gl & dst & Hr & Hturn & _ & _ & _ & Hn & Htl & _ & Hend).
    destruct Hend as [[-> _]|[_ ->]]; [|destruct Ho; congruence].
    assert (Hpass : _player_turn (next_turn (settle gl r dst))
                    = Some (_name (deref g (other r)))
                    ∧ _player_turn (next_turn (settle gl r dst))
                      ≠ _player_turn g).
    { eapply turn_passes; eauto.
      - intros r'. by rewrite name_settle.
      - by rewrite turn_settle. }
    exists r. split_and!; [done|done|by apply two_players_lookup|apply Hpass..].
  - intros ->.
    destruct Hst as [[_ Hnot]|Hst];
      [exfalso; apply Hnot; unfold completed; tauto|].
    destruct Hst as (r & gl & dst & _ & _ & _ & _ & _ & _ & _ & _ & Hend).
    destruct Hend as [[_ [?|?]]|[-> _]]; [congruence..|done].
  - by eapply run_call_two_players.
Qed.

Lemma C8_turn_alternation_witness :
  _player_turn (run_call (MovePiece "A" (0, 0) (0, 1) 1) alice_bob).2
  = Some "B"
  ∧ _player_turn after_win = None.
Proof.
  split.
  - destruct (C8_turn_alternation alice_bob (MovePiece "A" (0, 0) (0, 1) 1)
                (Ret (PyStr "successfully moved"))
                (run_call (MovePiece "A" (0, 0) (0, 1) 1) alice_bob).2)
      as (_ & Hpass & _).
    + repeat constructor.
    + split; [discriminate | reflexivity].
    + vm_compute. reflexivity.
    + destruct Hpass as (r & Hr & _ & _ & Ht & _); [by right|].
      assert (r = FirstP) as -> by (vm_compute in Hr; congruence).
      exact Ht.
  - destruct (C8_turn_alternation before_win winning_move
                (Ret (PyStr "Wins")) after_win) as (_ & _ & Hwin & _).
    + apply run_calls_invariant.
    + apply (run_calls_two_players alice_bob winning_game);
        [repeat constructor | split; [discriminate | reflexivity]].
    + exact winning_move_run.
    + by apply Hwin.
Defined.

(** C9 (initial state).  A new game has the 36 singleton stacks of the
    starting layout, rows alternating R R G G R R and G G R R G G; both
    players have reserve 0 and captured 0, also as [show_reserve] and
    [show_captured] report them for any name; the turn is with the player
    given first; and when the two names differ, every call in the name of
    the second player is refused and changes nothing. *)
Theorem C9_initial_state a b :
  let g := new_game a b in
  map (map data) (_game_board g)
  = [ [["R"]; ["R"]; ["G"]; ["G"]; ["R"]; ["R"]];
      [["G"]; ["G"]; ["R"]; ["R"]; ["G"]; ["G"]];
      [["R"]; ["R"]; ["G"]; ["G"]; ["R"]; ["R"]];
      [["G"]; ["G"]; ["R"]; ["R"]; ["G"]; ["G"]];
      [["R"]; ["R"]; ["G"]; ["G"]; ["R"]; ["R"]];
      [["G"]; ["G"]; ["R"]; ["R"]; ["G"]; ["G"]] ]
  ∧ (∀ row column, (row < 6)%nat → (column < 6)%nat →
       data (cell g (row, column))
       = [if Nat.even (row + column / 2) then "R" else "G"])
  ∧ _reserve (_first_player g) = 0 ∧ _captured (_first_player g) = 0
  ∧ _reserve (_second_player g) = 0 ∧ _captured (_second_player g) = 0
  ∧ (∀ n, show_reserve n g = (Ret 0, g) ∧ show_captured n g = (Ret 0, g))
  ∧ get_player_turn g = Some a.1
  ∧ (a.1 ≠ b.1 → ∀ c, caller c = b.1 → run_call c g = (Ret PyFalse, g)).
Proof.
  simpl. split_and!; try reflexivity.
  - intros row column Hrow Hcol.
    do 6 (destruct row as [|row]; [
      do 6 (destruct column as [|column]; [reflexivity|]); lia|]).
    lia.
  - intros n. unfold show_reserve, show_captured.
    destruct (_players (new_game a b) !! n) as [[|]|]; done.
  - intros Hne c Hc.
    assert (Hb : _players (new_game a b) !! b.1 = Some SecondP)
      by apply lookup_insert_eq.
    assert (Ht : Some b.1 ≠ _player_turn (new_game a b))
      by (simpl; congruence).
    destruct c as [n [row column]|n [r1 c1] [r2 c2] k];
      simpl in Hc; subst n; unfold run_call.
    + rewrite (reserved_move_run _ _ _ _ SecondP (new_game_square a b) Hb).
      by rewrite bool_decide_eq_true_2.
    + rewrite (move_piece_run _ _ _ _ _ _ _ SecondP
                 (new_game_square a b) Hb).
      simpl. by rewrite bool_decide_eq_true_2.
Qed.

Lemma C9_initial_state_witness :
  run_call (MovePiece "B" (1, 0) (1, 1) 1) alice_bob = (Ret PyFalse, alice_bob).
Proof.
  destruct (C9_initial_state ("A", "R") ("B", "G"))
    as (_ & _ & _ & _ & _ & _ & _ & _ & Hsecond).
  apply Hsecond; [discriminate | reflexivity].
Defined.

(** C10 (piece conservation).  Whatever the two players are called and
    whatever calls of [reserved_move] and [move_piece] follow the
    construction, accepted, refused or raising, the pieces on the board and
    the reserve and captured counts of both players add up to 36. *)
Theorem C10_piece_conservation a b cs :
  total_pieces (run_calls cs (new_game a b)) = 36.
Proof. apply run_calls_invariant. Qed.

(** * Further properties of the code *)

(** ** Queue *)

(** X1.  Whatever integer [remove_items] is called with, appending the
    pieces it returns to the queue it leaves gives the queue back: the two
    slices [data[-n:]] and [data[:-n]] split the list. *)
Theorem X1_remove_add_round_trip q n :
  Q.add_items (Q.remove_items q n).2 (Q.remove_items q n).1 = q.
Proof.
  destruct q as [l]. unfold Q.add_items, Q.remove_items. simpl.
  by rewrite slice_split.
Qed.

(** X2.  For a number of pieces between 1 and the length of the queue,
    [remove_items] returns exactly that many pieces, the top ones in their
    order, and leaves the ones below. *)
Theorem X2_remove_items_top q n :
  1 ≤ n ≤ Q.get_length q →
  let keep := (length (data q) - Z.to_nat n)%nat in
  (Q.remove_items q n).1 = drop keep (data q)
  ∧ data (Q.remove_items q n).2 = take keep (data q)
  ∧ Z.of_nat (length (Q.remove_items q n).1) = n
  ∧ Q.get_length (Q.remove_items q n).2 = Q.get_length q - n.
Proof.
  unfold Q.get_length, Q.remove_items, slice_from, slice_to. simpl.
  intros Hn. rewrite py_bound_top by lia.
  rewrite length_drop, length_take. split_and!; [done|done|lia|lia].
Qed.

Lemma X2_remove_items_top_witness :
  (Q.remove_items {| data := ["G"; "R"; "G"; "R"] |} 3).1 = ["R"; "G"; "R"]
  ∧ data (Q.remove_items {| data := ["G"; "R"; "G"; "R"] |} 3).2 = ["G"].
Proof.
  destruct (X2_remove_items_top {| data := ["G"; "R"; "G"; "R"] |} 3)
    as (H1 & H2 & _).
  - vm_compute. split; discriminate.
  - split; [exact H1 | exact H2].
Defined.

(** X3.  Called with 0, or with a number not below the length of the queue,
    [remove_items] returns every piece and leaves the queue empty: [-0] is
    0, so [data[-0:]] is the whole list and [data[:-0]] is empty. *)
Theorem X3_remove_items_all q n :
  n = 0 ∨ Q.get_length q ≤ n →
  Q.remove_items q n = (data q, {| data := [] |}).
Proof.
  unfold Q.get_length, Q.remove_items, slice_from, slice_to.
  intros Hn.
  assert (Hb : py_bound (length (data q)) (- n) = 0%nat).
  { unfold py_bound. case_bool_decide; lia. }
  by rewrite Hb, drop_0, take_0.
Qed.

Lemma X3_remove_items_all_witness :
  Q.remove_items {| data := ["G"; "R"] |} 0 = (["G"; "R"], {| data := [] |}).
Proof.
  apply (X3_remove_items_all {| data := ["G"; "R"] |} 0). left. reflexivity.
Defined.

(** X4.  Called with a negative number [-k], [remove_items] keeps the
    bottom [k] pieces (all of them when the queue is shorter) and returns
    the ones above. *)
Theorem X4_remove_items_negative q n :
  n < 0 →
  let k := Nat.min (Z.to_nat (- n)) (length (data q)) in
  Q.remove_items q n = (drop k (data q), {| data := take k (data q) |}).
Proof.
  unfold Q.remove_items, slice_from, slice_to. intros Hn. simpl.
  assert (Hb : py_bound (length (data q)) (- n)
               = Nat.min (Z.to_nat (- n)) (length (data q))).
  { unfold py_bound. rewrite bool_decide_eq_false_2 by lia. lia. }
  by rewrite Hb.
Qed.

Lemma X4_remove_items_negative_witness :
  Q.remove_items {| data := ["G"; "R"; "R"] |} (-1)
  = (["R"; "R"], {| data := ["G"] |}).
Proof.
  apply (X4_remove_items_negative {| data := ["G"; "R"; "R"] |} (-1)).
  reflexivity.
Defined.

(** X5.  [dequeue] and [display_top] raise [IndexError] exactly on the
    queues for which [is_empty] answers true, which are the queues of
    length 0; a [dequeue] that raises leaves the queue as it was. *)
Theorem X5_empty_queue_raises q :
  (Q.is_empty q = true ↔ Q.get_length q = 0)
  ∧ (Q.is_empty q = true ↔ Q.dequeue q = (Raise IndexError, q))
  ∧ (Q.is_empty q = true ↔ Q.display_top q = Raise IndexError)
  ∧ (∀ e q', Q.dequeue q = (Raise e, q') → q' = q).
Proof.
  destruct q as [l].
  unfold Q.is_empty, Q.get_length, Q.dequeue, Q.display_top. simpl.
  rewrite bool_decide_eq_true. split_and!.
  - lia.
  - destruct l; simpl; split; try done; lia.
  - destruct (last l) eqn:E.
    + split; [|done]. intros Hl. destruct l; [done|simpl in Hl; lia].
    + apply last_None in E. subst l. done.
  - intros e q'. destruct l; intros [= <-]. done.
Qed.

(** X6.  The queue is first in, first out at the bottom and last in on
    top: after [enqueue] the new value is what [display_top] shows and the
    queue is one longer; [dequeue] still returns the oldest value and
    leaves the new one on top, and on an empty queue it returns the new
    value itself. *)
Theorem X6_enqueue_order q v :
  Q.display_top (Q.enqueue q v) = Ret v
  ∧ Q.get_length (Q.enqueue q v) = Q.get_length q + 1
  ∧ (∀ x q', Q.dequeue q = (Ret x, q') →
       Q.dequeue (Q.enqueue q v) = (Ret x, Q.enqueue q' v))
  ∧ (Q.is_empty q = true →
       Q.dequeue (Q.enqueue q v) = (Ret v, {| data := [] |})).
Proof.
  destruct q as [l].
  unfold Q.display_top, Q.enqueue, Q.get_length, Q.dequeue, Q.is_empty.
  simpl. split_and!.
  - by rewrite last_snoc.
  - rewrite length_app. simpl. lia.
  - intros x q'. destruct l as [|y l]; [done|]. simpl. by intros [= -> <-].
  - rewrite bool_decide_eq_true. intros Hl. by destruct l.
Qed.

Lemma X6_enqueue_order_witness :
  Q.dequeue (Q.enqueue {| data := ["G"; "R"] |} "R")
  = (Ret "G", {| data := ["R"; "R"] |})
  ∧ Q.dequeue (Q.enqueue {| data := [] |} "R") = (Ret "R", {| data := [] |}).
Proof.
  destruct (X6_enqueue_order {| data := ["G"; "R"] |} "R")
    as (_ & _ & Hold & _).
  destruct (X6_enqueue_order {| data := [] |} "R") as (_ & _ & _ & Hnew).
  split.
  - apply (Hold "G" {| data := ["R"] |}). reflexivity.
  - apply Hnew. reflexivity.
Defined.

(** ** Player *)

(** X7.  On a player whose reserve is not negative, [remove_reserved]
    takes one piece when there is one and does nothing at 0, so the reserve
    never becomes negative; it undoes [add_reserved], and it leaves the
    name, the symbol and the captured count alone. *)
Theorem X7_remove_reserved_clamped p :
  0 ≤ _reserve p →
  _reserve (P.remove_reserved p) = Z.max 0 (_reserve p - 1)
  ∧ 0 ≤ _reserve (P.remove_reserved p)
  ∧ P.remove_reserved (P.add_reserved p) = p
  ∧ _name (P.remove_reserved p) = _name p
  ∧ _piece (P.remove_reserved p) = _piece p
  ∧ _captured (P.remove_reserved p) = _captured p.
Proof.
  intros Hp. destruct p as [n s r c].
  unfold P.remove_reserved, P.add_reserved. simpl in *.
  split_and!; try done.
  - case_bool_decide; lia.
  - case_bool_decide; lia.
  - rewrite bool_decide_eq_true_2 by lia. f_equal. lia.
Qed.

Lemma X7_remove_reserved_clamped_witness :
  _reserve (P.remove_reserved (P.init "A" "R")) = 0
  ∧ P.remove_reserved (P.add_reserved (P.init "A" "R")) = P.init "A" "R".
Proof.
  destruct (X7_remove_reserved_clamped (P.init "A" "R"))
    as (H1 & _ & H3 & _).
  - simpl. lia.
  - split; [exact H1 | exact H3].
Defined.

(** ** How a call goes through its stages *)

Lemma next_turn_set_turn g : ∃ t, next_turn g = set_turn g (Some t).
Proof.
  unfold next_turn, switch_turns. case_bool_decide; eexists; reflexivity.
Qed.

(** A property of the state that every stage of a move keeps is kept by
    every call. *)
Lemma run_call_preserves (I : FocusGame → Prop) g c o g' :
  square (_game_board g) → run_call c g = (o, g') → I g →
  (∀ r dst, _players g !! caller c = Some r →
            _player_turn g = Some (caller c) →
            inside (length (_game_board g)) dst →
            0 < _reserve (deref g r) → I (placed g r dst)) →
  (∀ r src dst k, _players g !! caller c = Some r →
            _player_turn g = Some (caller c) →
            inside (length (_game_board g)) src →
            inside (length (_game_board g)) dst →
            0 ≤ k ≤ Q.get_length (cell g src) →
            last (data (cell g src)) = Some (_piece (deref g r)) →
            I (transferred g src dst k)) →
  (∀ gl r dst, _players g !! caller c = Some r → same_shape g gl →
            inside (length (_game_board g)) dst →
            I gl → I (settle gl r dst)) →
  (∀ g2, I g2 → I (next_turn g2)) →
  (∀ g2, I g2 → I (set_turn g2 None)) →
  I g'.
Proof.
  intros Hsq Hrun Hg Hplaced Hmoved Hsettle Hnext Hwin.
  destruct c as [n [row column]|n [r1 c1] [r2 c2] k];
    unfold run_call in Hrun; simpl in Hplaced, Hmoved, Hsettle.
  - apply reserved_move_inv in Hrun as [[-> _]|Hok]; [done| |done].
    destruct Hok as (r & Hr & Hturn & Hres & Hpos & _ & ->).
    pose proof (check_position_inside _ _ _ Hpos) as Hin.
    apply Hnext, (Hsettle _ _ _ Hr); [apply same_shape_placed|done|].
    by apply (Hplaced r).
  - apply move_piece_inv in Hrun as [[-> _]|Hok]; [done| |done].
    destruct Hok as (r & Hr & Hturn & Hp1 & Hp2 & Hk & Hmv & Htop & Hend).
    simpl in Hend.
    pose proof (check_position_inside _ _ _ Hp1) as Hin1.
    pose proof (check_position_inside _ _ _ Hp2) as Hin2.
    apply check_move_spec in Hmv as Hline.
    assert (Hk0 : 0 ≤ k) by (destruct Hline as [[_ <-]|[_ <-]]; lia).
    assert (Hstage : I (next_turn (settle (transferred g (at_pos r1 c1)
                          (at_pos r2 c2) k) r (at_pos r2 c2)))).
    { apply Hnext, (Hsettle _ _ _ Hr);
        [apply same_shape_transferred|done|].
      by apply (Hmoved r). }
    destruct Hend as [(_ & _ & ->)|(_ & _ & ->)]; [by apply Hwin|done].
Qed.

(** A property that every call keeps holds after every sequence of calls. *)
Lemma run_calls_preserves (I : FocusGame → Prop) cs g :
  (∀ g1 c, square (_game_board g1) → I g1 → I (run_call c g1).2) →
  square (_game_board g) → I g → I (run_calls cs g).
Proof.
  intros Hstep. revert g. induction cs as [|c cs IH]; intros g Hsq Hg; [done|].
  simpl. apply IH; [|by apply Hstep].
  destruct (run_call c g) as [o g1] eqn:E.
  by apply (run_call_shape _ _ _ _ Hsq E).
Qed.

(** ** Queries *)

Lemma py_index_six i :
  py_index 6 i
  = if bool_decide (-6 ≤ i < 6) then Some (Z.to_nat (i `mod` 6)) else None.
Proof.
  unfold py_index.
  destruct (decide (0 ≤ i)) as [Hi|Hi].
  - rewrite bool_decide_eq_true_2 by done.
    destruct (decide (i < 6)) as [Hj|Hj].
    + rewrite !bool_decide_eq_true_2 by lia. by rewrite Z.mod_small by lia.
    + by rewrite !bool_decide_eq_false_2 by lia.
  - rewrite bool_decide_eq_false_2 by done.
    destruct (decide (-6 ≤ i)) as [Hj|Hj].
    + rewrite !bool_decide_eq_true_2 by lia. do 2 f_equal.
      rewrite <- (Z.mod_add i 1 6) by lia. rewrite Z.mod_small by lia. lia.
    + by rewrite !bool_decide_eq_false_2 by lia.
Qed.

(** X8.  On the 6x6 board [show_pieces] also takes negative coordinates,
    down to -6, and counts them from the far end, as Python list indexing
    does; for a coordinate outside [-6, 6) it raises [IndexError].  It never
    changes the state. *)
Theorem X8_show_pieces_bounds g row column :
  board_6x6 g →
  (-6 ≤ row < 6 ∧ -6 ≤ column < 6 →
     show_pieces (row, column) g
     = (Ret (data (cell g (Z.to_nat (row `mod` 6),
                           Z.to_nat (column `mod` 6)))), g))
  ∧ (¬ (-6 ≤ row < 6 ∧ -6 ≤ column < 6) →
     show_pieces (row, column) g = (Raise IndexError, g)).
Proof.
  intros [Hsix Hsq].
  unfold show_pieces, bind, board_item. rewrite Hsix, py_index_six.
  destruct (decide (-6 ≤ row < 6)) as [Hr|Hr].
  - rewrite bool_decide_eq_true_2 by done.
    destruct (lookup_lt_is_Some_2 (_game_board g) (Z.to_nat (row `mod` 6)))
      as [line E].
    { rewrite Hsix. pose proof (Z.mod_pos_bound row 6). lia. }
    rewrite E, (square_lookup _ _ _ Hsq E), Hsix, py_index_six.
    destruct (decide (-6 ≤ column < 6)) as [Hc|Hc].
    + rewrite bool_decide_eq_true_2 by done. split; [done|tauto].
    + rewrite bool_decide_eq_false_2 by done. split; [tauto|done].
  - rewrite bool_decide_eq_false_2 by done. split; [tauto|done].
Qed.

Lemma X8_show_pieces_bounds_witness :
  show_pieces (-1, -6) alice_bob = (Ret ["G"], alice_bob)
  ∧ show_pieces (0, 6) alice_bob = (Raise IndexError, alice_bob).
Proof.
  split.
  - destruct (X8_show_pieces_bounds alice_bob (-1) (-6)) as [Hin _].
    + split; [reflexivity | repeat constructor].
    + apply Hin. lia.
  - destruct (X8_show_pieces_bounds alice_bob 0 6) as [_ Hout].
    + split; [reflexivity | repeat constructor].
    + apply Hout. lia.
Defined.

(** X9.  With two players of different names, [show_reserve] and
    [show_captured] answer with the count of the first player for the first
    name, of the second player for the second name and with 0 for every
    other name; they never raise and never change the state. *)
Theorem X9_show_counts g name :
  two_players g →
  let pick (f : Player → Z) :=
    if bool_decide (name = _name (_first_player g))
    then f (_first_player g)
    else if bool_decide (name = _name (_second_player g))
         then f (_second_player g) else 0 in
  show_reserve name g = (Ret (pick _reserve), g)
  ∧ show_captured name g = (Ret (pick _captured), g).
Proof.
  intros [Hne Hd]. simpl. unfold show_reserve, show_captured. rewrite Hd.
  destruct (decide (name = _name (_second_player g))) as [->|H2].
  - rewrite lookup_insert_eq.
    rewrite bool_decide_eq_false_2 by congruence.
    by rewrite bool_decide_eq_true_2.
  - rewrite lookup_insert_ne by congruence.
    rewrite (bool_decide_eq_false_2 (name = _name (_second_player g)))
      by done.
    destruct (decide (name = _name (_first_player g))) as [->|H1].
    + rewrite lookup_insert_eq. by rewrite bool_decide_eq_true_2.
    + rewrite lookup_insert_ne by congruence. rewrite lookup_empty.
      by rewrite bool_decide_eq_false_2.
Qed.

Lemma X9_show_counts_witness :
  show_reserve "A" before_overflow = (Ret 2, before_overflow)
  ∧ show_captured "Carol" before_overflow = (Ret 0, before_overflow).
Proof.
  destruct (X9_show_counts before_overflow "A") as [HA _].
  { vm_compute. split; [discriminate | reflexivity]. }
  destruct (X9_show_counts before_overflow "Carol") as [_ HC].
  { vm_compute. split; [discriminate | reflexivity]. }
  split.
  - rewrite HA. vm_compute. reflexivity.
  - rewrite HC. vm_compute. reflexivity.
Defined.

(** X10.  When both players are constructed with the same name, the
    dictionary holds the second player only: after any sequence of calls
    the first player object is still as constructed, the turn is with that
    one name (or [None] after a win), and [show_reserve] and [show_captured]
    report the counts of the second player object. *)
Theorem X10_same_name n pa pb cs :
  let g := run_calls cs (new_game (n, pa) (n, pb)) in
  _first_player g = P.init n pa
  ∧ _name (_second_player g) = n
  ∧ _piece (_second_player g) = pb
  ∧ (_player_turn g = Some n ∨ _player_turn g = None)
  ∧ show_reserve n g = (Ret (_reserve (_second_player g)), g)
  ∧ show_captured n g = (Ret (_captured (_second_player g)), g).
Proof.
  simpl.
  set (I := λ g : FocusGame,
    deref g FirstP = P.init n pa
    ∧ _name (deref g SecondP) = n
    ∧ _piece (deref g SecondP) = pb
    ∧ _players g = <[n := SecondP]> (<[n := FirstP]> ∅)
    ∧ (_player_turn g = Some n ∨ _player_turn g = None)).
  assert (Hlook : ∀ g name r, I g → _players g !! name = Some r →
                    r = SecondP).
  { intros g name r (_ & _ & _ & Hd & _) Hr. rewrite Hd in Hr.
    destruct (decide (n = name)) as [->|Hn].
    - rewrite lookup_insert_eq in Hr. congruence.
    - by rewrite !lookup_insert_ne, lookup_empty in Hr. }
  assert (HI : I (run_calls cs (new_game (n, pa) (n, pb)))).
  { apply run_calls_preserves;
      [|apply new_game_square|unfold I; simpl; auto 10].
    intros g c Hsq Hg. destruct (run_call c g) as [o g'] eqn:E. simpl.
    apply (run_call_preserves I g c o g' Hsq E Hg).
    - intros r dst Hr _ Hin _. rewrite (Hlook g _ r Hg Hr).
      destruct Hg as (H1 & H2 & H3 & H4 & H5). unfold I.
      rewrite deref_placed_ne, deref_placed, turn_placed by done.
      destruct (same_shape_placed g SecondP dst) as (_ & _ & ->).
      split_and!; done.
    - intros r src dst k _ _ _ _ _ _. exact Hg.
    - intros gl r dst Hr Hsh Hin (H1 & H2 & H3 & H4 & H5).
      rewrite (Hlook g _ r Hg Hr). unfold I.
      rewrite deref_settle_ne, deref_settle, turn_settle by done.
      destruct (same_shape_settle gl SecondP dst) as (_ & _ & ->).
      split_and!; done.
    - intros g2 (H1 & H2 & H3 & H4 & H5). unfold I.
      rewrite !deref_next_turn, turn_next_turn.
      destruct (same_shape_next_turn g2) as (_ & _ & ->).
      split_and!; try done. left. f_equal.
      change (_first_player g2) with (deref g2 FirstP).
      change (_second_player g2) with (deref g2 SecondP).
      rewrite H1, H2. simpl. by case_bool_decide.
    - intros g2 (H1 & H2 & H3 & H4 & H5). unfold I.
      split_and!; try done. by right. }
  destruct HI as (H1 & H2 & H3 & H4 & H5).
  unfold show_reserve, show_captured. rewrite H4, lookup_insert_eq.
  split_and!; done.
Qed.

(** ** Rule checks *)

(** X11.  [check_move] accepts exactly the moves along a row or a column
    whose number of pieces is the distance covered, the sum of the two
    coordinate differences; it accepts a move exactly when it accepts the
    move back, and from a cell to itself it accepts the count 0 only. *)
Theorem X11_check_move_geometry r1 c1 r2 c2 k :
  (check_move r1 c1 r2 c2 k = true ↔
     (r1 = r2 ∨ c1 = c2) ∧ Z.abs (r1 - r2) + Z.abs (c1 - c2) = k ∧ 0 ≤ k)
  ∧ check_move r1 c1 r2 c2 k = check_move r2 c2 r1 c1 k
  ∧ (check_move r1 c1 r1 c1 k = true ↔ k = 0).
Proof.
  pose proof (Z.abs_spec (r1 - r2)) as Ar.
  pose proof (Z.abs_spec (c1 - c2)) as Ac.
  pose proof (Z.abs_spec (r2 - r1)) as Br.
  pose proof (Z.abs_spec (c2 - c1)) as Bc.
  split_and!.
  - rewrite check_move_spec. unfold straight_line. simpl. lia.
  - destruct (check_move r1 c1 r2 c2 k) eqn:E1,
             (check_move r2 c2 r1 c1 k) eqn:E2; try done.
    + apply check_move_spec in E1.
      assert (straight_line (r2, c2) (r1, c1) k) as E3%check_move_spec
        by (unfold straight_line in *; simpl in *; lia).
      congruence.
    + apply check_move_spec in E2.
      assert (straight_line (r1, c1) (r2, c2) k) as E3%check_move_spec
        by (unfold straight_line in *; simpl in *; lia).
      congruence.
  - rewrite check_move_spec. unfold straight_line. simpl.
    rewrite !Z.sub_diag. simpl. lia.
Qed.

(** ** The end of the game *)

Lemma run_call_game_over g c :
  _player_turn g = None →
  run_call c g = (Ret PyFalse, g) ∨ run_call c g = (Raise KeyError, g).
Proof.
  intros Ht. destruct c as [n [row column]|n [r1 c1] [r2 c2] k];
    unfold run_call.
  - unfold reserved_move, bind, players_item, get.
    destruct (_players g !! n); [|by right].
    rewrite Ht. rewrite bool_decide_eq_true_2 by done. by left.
  - unfold move_piece, bind, players_item, get.
    destruct (_players g !! n); [|by right].
    rewrite Ht. rewrite bool_decide_eq_true_2 by done. by left.
Qed.

(** X12.  Once the turn is [None], as a winning move leaves it, no call
    does anything any more: every later [reserved_move] and [move_piece]
    returns [False], or raises [KeyError] for an unknown name, and the
    state stays as it is. *)
Theorem X12_game_over_is_final g cs :
  _player_turn g = None →
  run_calls cs g = g
  ∧ Forall (λ o, o = Ret PyFalse ∨ o = Raise KeyError) (outcomes cs g).
Proof.
  intros Ht. induction cs as [|c cs [IH1 IH2]]; simpl; [done|].
  destruct (run_call_game_over g c Ht) as [-> | ->]; simpl;
    (split; [done|]); constructor; auto.
Qed.

Lemma X12_game_over_is_final_witness :
  run_calls [MovePiece "B" (5, 0) (5, 1) 1; ReservedMove "A" (0, 0);
             MovePiece "A" (3, 0) (3, 1) 1] after_win = after_win.
Proof.
  apply (X12_game_over_is_final after_win). exact after_win_turn.
Defined.

(** ** What holds throughout a game *)

(** X13.  After any sequence of calls on a new game the board still has
    six rows of six cells and no stack is higher than five pieces. *)
Theorem X13_board_stays_in_shape a b cs :
  let g := run_calls cs (new_game a b) in
  length (_game_board g) = 6%nat
  ∧ Forall (λ line, length line = 6%nat) (_game_board g)
  ∧ ∀ row column, (length (data (cell g (row, column))) ≤ 5)%nat.
Proof.
  simpl. destruct (run_calls_invariant a b cs) as (Hsq & Hsix & Hlow & _).
  split_and!; [done| |].
  - unfold square in Hsq. by rewrite Hsix in Hsq.
  - intros row column. specialize (Hlow (row, column)).
    unfold Q.get_length, MAX_HEIGHT in Hlow. lia.
Qed.

Lemma deref_transferred g src dst k r :
  deref (transferred g src dst k) r = deref g r.
Proof. by destruct r. Qed.

Lemma pref_cases (r r' : pref) : r = r' ∨ r ≠ r'.
Proof. destruct r, r'; auto; right; discriminate. Qed.

Lemma credit_bounds l p :
  _reserve p ≤ _reserve (credit l p)
  ∧ _captured p ≤ _captured (credit l p)
  ∧ _name (credit l p) = _name p ∧ _piece (credit l p) = _piece p.
Proof.
  unfold credit, own_count, foreign_count. simpl.
  split_and!; try done; lia.
Qed.

(** X14.  A call changes no player object other than the one the
    dictionary holds for the caller's name, so an opponent's counts stay as
    they are; and for every player the name and the symbol stay, the
    captured count never goes down and the reserve goes down by at most
    one. *)
Theorem X14_only_the_caller_scores g c o g' :
  square (_game_board g) → run_call c g = (o, g') →
  (∀ r', _players g !! caller c ≠ Some r' → deref g' r' = deref g r')
  ∧ ∀ r', _name (deref g' r') = _name (deref g r')
          ∧ _piece (deref g' r') = _piece (deref g r')
          ∧ _captured (deref g r') ≤ _captured (deref g' r')
          ∧ _reserve (deref g r') - 1 ≤ _reserve (deref g' r').
Proof.
  intros Hsq Hrun.
  set (I := λ g2 : FocusGame,
    (∀ r', _players g !! caller c ≠ Some r' → deref g2 r' = deref g r')
    ∧ ∀ r', _name (deref g2 r') = _name (deref g r')
            ∧ _piece (deref g2 r') = _piece (deref g r')
            ∧ _captured (deref g r') ≤ _captured (deref g2 r')
            ∧ _reserve (deref g r') - 1 ≤ _reserve (deref g2 r')).
  apply (run_call_preserves I g c o g' Hsq Hrun).
  - unfold I. split; [done|]. intros r'. split_and!; try done; lia.
  - intros r dst Hr _ Hin Hres. split.
    + intros r' Hne. apply deref_placed_ne. congruence.
    + intros r'. destruct (pref_cases r' r) as [->|Hne].
      * rewrite deref_placed. unfold P.remove_reserved. simpl.
        rewrite bool_decide_eq_true_2 by lia. split_and!; try done; lia.
      * rewrite deref_placed_ne by done. split_and!; try done; lia.
  - intros r src dst k _ _ _ _ _ _. unfold I.
    split; [intros r' _; apply deref_transferred|].
    intros r'. rewrite deref_transferred. split_and!; try done; lia.
  - intros gl r dst Hr _ _ [H1 H2]. split.
    + intros r' Hne. rewrite deref_settle_ne by congruence. by apply H1.
    + intros r'. destruct (H2 r') as (Hn & Hp & Hc & Hres).
      destruct (pref_cases r' r) as [->|Hne].
      * rewrite deref_settle.
        destruct (credit_bounds
          (take (excess (data (cell gl dst))) (data (cell gl dst)))
          (deref gl r)) as (B1 & B2 & B3 & B4).
        rewrite B3, B4. split_and!; try done; lia.
      * rewrite deref_settle_ne by done. done.
  - intros g2 [H1 H2]. split.
    + intros r' Hne. rewrite deref_next_turn. by apply H1.
    + intros r'. rewrite deref_next_turn. apply H2.
  - intros g2 [H1 H2]. split.
    + intros r' Hne. rewrite deref_set_turn. by apply H1.
    + intros r'. rewrite deref_set_turn. apply H2.
Qed.

Lemma X14_only_the_caller_scores_witness :
  deref (run_call (MovePiece "A" (0, 0) (0, 1) 1) alice_bob).2 SecondP
  = deref alice_bob SecondP.
Proof.
  destruct (X14_only_the_caller_scores alice_bob
              (MovePiece "A" (0, 0) (0, 1) 1)
              (run_call (MovePiece "A" (0, 0) (0, 1) 1) alice_bob).1
              (run_call (MovePiece "A" (0, 0) (0, 1) 1) alice_bob).2)
    as [Hother _].
  - repeat constructor.
  - by destruct (run_call (MovePiece "A" (0, 0) (0, 1) 1) alice_bob).
  - assert (Hne : _players alice_bob !! "A" ≠ Some SecondP)
      by (vm_compute; discriminate).
    exact (Hother SecondP Hne).
Defined.

(** X15.  A call changes no cell of the board other than the one it places
    on, or the two it moves between. *)
Theorem X15_other_cells_untouched g c o g' cl :
  square (_game_board g) → run_call c g = (o, g') →
  match c with
  | ReservedMove _ p => cl ≠ at_pos p.1 p.2
  | MovePiece _ p1 p2 _ => cl ≠ at_pos p1.1 p1.2 ∧ cl ≠ at_pos p2.1 p2.2
  end →
  cell g' cl = cell g cl.
Proof.
  intros Hsq Hrun Hcl.
  destruct c as [n [row column]|n [r1 c1] [r2 c2] k];
    unfold run_call in Hrun; simpl in Hcl.
  - apply reserved_move_inv in Hrun as [[-> _]|Hok]; [done| |done].
    destruct Hok as (r & _ & _ & _ & Hpos & _ & ->).
    pose proof (check_position_inside _ _ _ Hpos) as Hin.
    rewrite cell_next_turn, cell_settle_ne by done.
    by apply cell_placed_ne.
  - destruct Hcl as [Hc1 Hc2].
    apply move_piece_inv in Hrun as [[-> _]|Hok]; [done| |done].
    destruct Hok as (r & _ & _ & Hp1 & Hp2 & _ & _ & _ & Hend).
    simpl in Hend.
    assert (Hg' : cell g' cl = cell (settle (transferred g (at_pos r1 c1)
                     (at_pos r2 c2) k) r (at_pos r2 c2)) cl).
    { destruct Hend as [(_ & _ & ->)|(_ & _ & ->)];
        by rewrite ?cell_set_turn, cell_next_turn. }
    rewrite Hg', cell_settle_ne by done. by apply cell_transferred_ne.
Qed.

Lemma X15_other_cells_untouched_witness :
  cell (run_call (MovePiece "A" (0, 0) (0, 1) 1) alice_bob).2 (3%nat, 3%nat)
  = cell alice_bob (3%nat, 3%nat).
Proof.
  apply (X15_other_cells_untouched alice_bob
           (MovePiece "A" (0, 0) (0, 1) 1)
           (run_call (MovePiece "A" (0, 0) (0, 1) 1) alice_bob).1).
  - repeat constructor.
  - by destruct (run_call (MovePiece "A" (0, 0) (0, 1) 1) alice_bob).
  - split; discriminate.
Defined.

(** ** Symbols and counters throughout a game *)

Lemma in_take {A} (x : A) n (l : list A) : x ∈ take n l → x ∈ l.
Proof.
  intros Hx. rewrite <- (take_drop n l). apply elem_of_app. by left.
Qed.

Lemma in_drop {A} (x : A) n (l : list A) : x ∈ drop n l → x ∈ l.
Proof.
  intros Hx. rewrite <- (take_drop n l). apply elem_of_app. by right.
Qed.

Lemma own_count_pos piece l : 0 < own_count piece l → piece ∈ l.
Proof.
  unfold own_count. intros Hpos.
  destruct (filter (λ x, x = piece) l) as [|x l'] eqn:E; [simpl in Hpos; lia|].
  assert (Hx : x ∈ filter (λ x, x = piece) l) by (rewrite E; left).
  apply list_elem_of_filter in Hx as [-> Hx]. done.
Qed.

Lemma symbols_ok_new_game a b : symbols_ok (new_game a b).
Proof.
  split.
  - intros [row column].
    do 6 (destruct row as [|row]; [
      do 6 (destruct column as [|column];
            [repeat constructor; by (left + right)|]);
      constructor|]).
    constructor.
  - intros [|]; simpl; lia.
Qed.

Lemma symbols_ok_run_call g c o g' :
  square (_game_board g) → run_call c g = (o, g') →
  symbols_ok g → symbols_ok g'.
Proof.
  intros Hsq Hrun Hg.
  apply (run_call_preserves symbols_ok g c o g' Hsq Hrun Hg).
  - intros r dst _ _ Hin Hres. destruct Hg as [Hc Hr]. split.
    + intros c'. destruct (decide (c' = dst)) as [->|Hne].
      * rewrite cell_placed by done. apply Forall_app. split; [apply Hc|].
        constructor; [by apply Hr|constructor].
      * rewrite cell_placed_ne by done. apply Hc.
    + intros r'. destruct (pref_cases r' r) as [->|Hne].
      * rewrite deref_placed. intros _. by apply Hr.
      * rewrite deref_placed_ne by done. apply Hr.
  - intros r src dst k _ _ Hsrc Hdst _ _. destruct Hg as [Hc Hr]. split.
    + intros c'. apply Forall_forall. intros x Hx.
      assert (Hfrom : x ∈ data (cell g src) ∨ x ∈ data (cell g dst)
                      ∨ x ∈ data (cell g c')).
      { destruct (decide (src = dst)) as [Hsd|Hsd].
        - destruct (decide (c' = dst)) as [->|Hne].
          + rewrite cell_transferred_same, slice_split in Hx by done. auto.
          + rewrite cell_transferred_ne in Hx by congruence. auto.
        - destruct (decide (c' = src)) as [->|Hn1].
          + rewrite cell_transferred_src in Hx by done.
            left. by apply in_take in Hx.
          + destruct (decide (c' = dst)) as [->|Hn2].
            * rewrite cell_transferred_dst in Hx by done.
              apply elem_of_app in Hx as [Hx|Hx]; [auto|].
              left. by apply in_drop in Hx.
            * rewrite cell_transferred_ne in Hx by done. auto. }
      destruct Hfrom as [Hx'|[Hx'|Hx']];
        (eapply Forall_forall; [apply Hc|exact Hx']).
    + intros r'. rewrite deref_transferred. apply Hr.
  - intros gl r dst _ (Hlen & Hsql & _) Hin [Hc Hr].
    assert (Hinl : inside (length (_game_board gl)) dst) by (by rewrite Hlen).
    split.
    + intros c'. destruct (decide (c' = dst)) as [->|Hne].
      * rewrite cell_settle by auto. apply Forall_forall. intros x Hx.
        apply in_drop in Hx. eapply Forall_forall; [apply Hc|exact Hx].
      * rewrite cell_settle_ne by done. apply Hc.
    + intros r'. destruct (pref_cases r' r) as [->|Hne].
      * rewrite deref_settle. unfold credit at 1 2. simpl. intros Hpos.
        destruct (decide (0 < _reserve (deref gl r))) as [Hold|Hold];
          [by apply Hr|].
        assert (Hown : _piece (deref gl r)
                       ∈ take (excess (data (cell gl dst)))
                           (data (cell gl dst)))
          by (apply own_count_pos; lia).
        apply in_take in Hown. eapply Forall_forall; [apply Hc|exact Hown].
      * rewrite deref_settle_ne by done. apply Hr.
  - intros g2 [Hc Hr]. split.
    + intros c'. rewrite cell_next_turn. apply Hc.
    + intros r'. rewrite deref_next_turn. apply Hr.
  - intros g2 [Hc Hr]. split.
    + intros c'. rewrite cell_set_turn. apply Hc.
    + intros r'. rewrite deref_set_turn. apply Hr.
Qed.

Lemma symbols_ok_run_calls a b cs : symbols_ok (run_calls cs (new_game a b)).
Proof.
  apply run_calls_preserves;
    [|apply new_game_square|apply symbols_ok_new_game].
  intros g c Hsq Hg. destruct (run_call c g) as [o g'] eqn:E. simpl.
  by eapply symbols_ok_run_call.
Qed.

(** X16.  Whatever symbols the two players are constructed with, after any
    sequence of calls every piece on the board is an R or a G, and so is the
    symbol of any player who holds pieces in reserve. *)
Theorem X16_board_symbols a b cs :
  let g := run_calls cs (new_game a b) in
  (∀ row column,
     Forall (λ x, x = "R" ∨ x = "G") (data (cell g (row, column))))
  ∧ (0 < _reserve (_first_player g) →
       _piece (_first_player g) = "R" ∨ _piece (_first_player g) = "G")
  ∧ (0 < _reserve (_second_player g) →
       _piece (_second_player g) = "R" ∨ _piece (_second_player g) = "G").
Proof.
  simpl. destruct (symbols_ok_run_calls a b cs) as [Hc Hr].
  split_and!.
  - intros row column. apply Hc.
  - apply (Hr FirstP).
  - apply (Hr SecondP).
Qed.

Lemma X16_board_symbols_witness :
  _piece (_first_player before_overflow) = "R"
  ∨ _piece (_first_player before_overflow) = "G".
Proof.
  destruct (X16_board_symbols ("A", "R") ("B", "G") overflow_game)
    as (_ & Hfirst & _).
  apply Hfirst. vm_compute. reflexivity.
Defined.

(** X17.  A player whose symbol is neither R nor G can never do anything:
    in every state a game reaches, each call in the name of such a player
    changes nothing; it returns [False], or raises [IndexError] when it is
    a move of zero pieces on an empty cell. *)
Theorem X17_foreign_symbol_never_moves a b cs c r :
  let g := run_calls cs (new_game a b) in
  _players g !! caller c = Some r →
  _piece (deref g r) ≠ "R" → _piece (deref g r) ≠ "G" →
  run_call c g = (Ret PyFalse, g) ∨ run_call c g = (Raise IndexError, g).
Proof.
  simpl. intros Hr HnR HnG.
  set (g := run_calls cs (new_game a b)) in *.
  destruct (run_calls_invariant a b cs) as (Hsq & _).
  destruct (symbols_ok_run_calls a b cs) as [Hc Hres]. fold g in Hsq, Hc, Hres.
  assert (Hoff : ¬ on_board (_piece (deref g r)))
    by (intros [?|?]; congruence).
  destruct c as [n [row column]|n [r1 c1] [r2 c2] k];
    simpl in Hr; unfold run_call.
  - left. rewrite (reserved_move_run g n row column r Hsq Hr).
    case_bool_decide; [done|].
    rewrite bool_decide_eq_true_2; [done|].
    destruct (decide (0 < _reserve (deref g r))) as [Hpos|Hpos]; [|lia].
    by destruct (Hoff (Hres r Hpos)).
  - rewrite (move_piece_run g n r1 c1 r2 c2 k r Hsq Hr). simpl.
    case_bool_decide; [by left|].
    destruct (negb _ || negb _); [by left|].
    case_bool_decide; [by left|].
    destruct (negb _); [by left|].
    unfold Q.display_top.
    destruct (last (data (cell g (at_pos r1 c1)))) as [top|] eqn:Htop;
      [|by right].
    left. rewrite bool_decide_eq_true_2; [done|]. intros Heq. apply Hoff.
    rewrite Heq. apply last_Some_elem_of in Htop.
    eapply Forall_forall; [apply Hc|exact Htop].
Qed.

Lemma X17_foreign_symbol_never_moves_witness :
  run_call (MovePiece "A" (0, 0) (0, 1) 1) (new_game ("A", "X") ("B", "G"))
  = (Ret PyFalse, new_game ("A", "X") ("B", "G")).
Proof.
  destruct (X17_foreign_symbol_never_moves ("A", "X") ("B", "G") []
              (MovePiece "A" (0, 0) (0, 1) 1) FirstP) as [H|H].
  - reflexivity.
  - discriminate.
  - discriminate.
  - exact H.
  - exfalso. vm_compute in H. discriminate H.
Defined.

Lemma counters_nonneg_run_calls a b cs r :
  0 ≤ _reserve (deref (run_calls cs (new_game a b)) r)
  ∧ 0 ≤ _captured (deref (run_calls cs (new_game a b)) r).
Proof.
  set (I := λ g : FocusGame,
    ∀ r, 0 ≤ _reserve (deref g r) ∧ 0 ≤ _captured (deref g r)).
  assert (HI : I (run_calls cs (new_game a b))).
  { apply run_calls_preserves; [|apply new_game_square|].
    - intros g c Hsq Hg. destruct (run_call c g) as [o g'] eqn:E. simpl.
      apply (run_call_preserves I g c o g' Hsq E Hg).
      + intros r0 dst _ _ _ Hres r'.
        destruct (pref_cases r' r0) as [->|Hne].
        * rewrite deref_placed. unfold P.remove_reserved. simpl.
          rewrite bool_decide_eq_true_2 by lia.
          destruct (Hg r0). lia.
        * rewrite deref_placed_ne by done. apply Hg.
      + intros r0 src dst k _ _ _ _ _ _ r'. rewrite deref_transferred.
        apply Hg.
      + intros gl r0 dst _ _ _ Hgl r'.
        destruct (pref_cases r' r0) as [->|Hne].
        * rewrite deref_settle.
          destruct (credit_bounds
            (take (excess (data (cell gl dst))) (data (cell gl dst)))
            (deref gl r0)) as (B1 & B2 & _).
          destruct (Hgl r0). lia.
        * rewrite deref_settle_ne by done. apply Hgl.
      + intros g2 Hg2 r'. rewrite deref_next_turn. apply Hg2.
      + intros g2 Hg2 r'. rewrite deref_set_turn. apply Hg2.
    - intros [|]; simpl; lia. }
  apply HI.
Qed.

(** X18.  After any sequence of calls on a new game, neither player's
    reserve or captured count is negative, none exceeds 36, and the four
    counts together never exceed 36. *)
Theorem X18_counters_in_range a b cs :
  let g := run_calls cs (new_game a b) in
  0 ≤ _reserve (_first_player g) ≤ 36
  ∧ 0 ≤ _captured (_first_player g) ≤ 36
  ∧ 0 ≤ _reserve (_second_player g) ≤ 36
  ∧ 0 ≤ _captured (_second_player g) ≤ 36
  ∧ _reserve (_first_player g) + _captured (_first_player g)
    + _reserve (_second_player g) + _captured (_second_player g) ≤ 36.
Proof.
  simpl.
  destruct (counters_nonneg_run_calls a b cs FirstP) as [H1 H2].
  destruct (counters_nonneg_run_calls a b cs SecondP) as [H3 H4].
  destruct (run_calls_invariant a b cs) as (_ & _ & _ & Htot).
  unfold total_pieces, board_pieces in Htot. simpl in H1, H2, H3, H4. lia.
Qed.

(** ** Return values *)

(** X19.  The value [reserved_move] returns is never true in a condition:
    it is [False] when the placement is refused and [None] when it is
    carried out.  The value [move_piece] returns is true in a condition
    exactly when the move was carried out. *)
Theorem X19_return_values g c v g' :
  square (_game_board g) → run_call c g = (Ret v, g') →
  match c with
  | ReservedMove _ _ =>
      truthy v = false ∧ (v = PyNone ↔ completed (Ret v))
  | MovePiece _ _ _ _ => truthy v = true ↔ completed (Ret v)
  end.
Proof.
  intros Hsq Hrun.
  destruct c as [n [row column]|n [r1 c1] [r2 c2] k];
    unfold run_call in Hrun.
  - apply reserved_move_inv in Hrun as [[_ [[= ->]|[=]]]|Hok]; [| |done].
    + split; [done|]. split; [done|]. intros H.
      by destruct (not_completed_false H).
    + destruct Hok as (r & _ & _ & _ & _ & [= ->] & _).
      split; [done|]. split; [by left|done].
  - apply move_piece_inv in Hrun as [[_ [[= ->]|[e [=]]]]|Hok]; [| |done].
    + split; [done|]. intros H. by destruct (not_completed_false H).
    + destruct Hok as (r & _ & _ & _ & _ & _ & _ & _ & Hend). simpl in Hend.
      destruct Hend as [(_ & [= ->] & _)|(_ & [= ->] & _)].
      * split; [by right; right|done].
      * split; [by right; left|done].
Qed.

Lemma X19_return_values_witness :
  ∃ v, (reserved_move "A" (2, 0) before_overflow).1 = Ret v
       ∧ completed (Ret v) ∧ truthy v = false.
Proof.
  exists PyNone.
  assert (E : run_call (ReservedMove "A" (2, 0)) before_overflow
              = (Ret PyNone,
                 (run_call (ReservedMove "A" (2, 0)) before_overflow).2))
    by (vm_compute; reflexivity).
  destruct (X19_return_values before_overflow (ReservedMove "A" (2, 0))
              PyNone _ (proj1 (run_calls_invariant _ _ _)) E) as [Hf Hc].
  split; [vm_compute; reflexivity|]. split; [by apply Hc | exact Hf].
Defined.

(** ** The move of zero pieces *)

Lemma queue_eta q : {| data := data q |} = q.
Proof. by destruct q. Qed.

Lemma transferred_same_zero g c :
  square (_game_board g) → inside (length (_game_board g)) c →
  transferred g c c 0 = g.
Proof.
  intros Hsq Hin. unfold transferred, Q.remove_items, Q.add_items. simpl.
  assert (Hb : py_bound (length (data (cell g c))) (- 0) = 0%nat)
    by (unfold py_bound; simpl; lia).
  unfold slice_from, slice_to. rewrite Hb.
  rewrite drop_0, take_0. rewrite cell_store_eq by done. simpl.
  by rewrite store_store, queue_eta, store_id.
Qed.

Lemma settle_low g r c :
  Q.get_length (cell g c) ≤ MAX_HEIGHT → settle g r c = g.
Proof.
  unfold Q.get_length, MAX_HEIGHT, settle, excess. intros Hlow.
  replace (Z.to_nat (Z.of_nat (length (data (cell g c))) - MAX_HEIGHT))
    with 0%nat by (unfold MAX_HEIGHT; lia).
  by rewrite drop_0, take_0, credit_nil, queue_eta, store_id, assign_id.
Qed.

(** X20.  A move of zero pieces from a cell to itself is a pass: when the
    caller holds the turn and owns the top of a stack on the board that is
    no higher than [MAX_HEIGHT], the move is carried out, the board and
    both players stay as they are, and the turn is switched, or set to
    [None] with the answer "Wins" when the caller's win condition holds. *)
Theorem X20_zero_move_passes g name row column r :
  square (_game_board g) →
  _players g !! name = Some r →
  _player_turn g = Some name →
  check_position g row column = true →
  last (data (cell g (at_pos row column))) = Some (_piece (deref g r)) →
  Q.get_length (cell g (at_pos row column)) ≤ MAX_HEIGHT →
  ∃ o g',
    move_piece name (row, column) (row, column) 0 g = (o, g')
    ∧ _game_board g' = _game_board g
    ∧ _first_player g' = _first_player g
    ∧ _second_player g' = _second_player g
    ∧ ((o = Ret (PyStr "successfully moved")
        ∧ switch_turns g = (Ret tt, g'))
       ∨ (o = Ret (PyStr "Wins") ∧ wins g r ∧ _player_turn g' = None)).
Proof.
  intros Hsq Hr Hturn Hpos Htop Hlow.
  pose proof (check_position_inside _ _ _ Hpos) as Hin.
  rewrite (move_piece_run g name row column row column 0 r Hsq Hr). simpl.
  rewrite bool_decide_eq_false_2 by (intros H; apply H; congruence).
  rewrite Hpos. simpl.
  rewrite bool_decide_eq_false_2 by (unfold Q.get_length; lia).
  assert (Hmv : check_move row column row column 0 = true).
  { apply check_move_spec. left. simpl. rewrite Z.sub_diag. done. }
  rewrite Hmv. simpl. unfold Q.display_top. rewrite Htop.
  rewrite bool_decide_eq_false_2 by (intros H; by apply H).
  rewrite transferred_same_zero, settle_low by done.
  assert (Hb : _game_board (next_turn g) = _game_board g)
    by apply board_next_turn.
  assert (H1 : _first_player (next_turn g) = _first_player g)
    by apply (deref_next_turn g FirstP).
  assert (H2 : _second_player (next_turn g) = _second_player g)
    by apply (deref_next_turn g SecondP).
  destruct (won (next_turn g) r) eqn:Hwon.
  - eexists _, _. split; [done|]. split_and!; try done. right.
    split_and!; try done. apply won_spec in Hwon.
    destruct Hwon as [Hcap Htops]. split.
    + by rewrite deref_next_turn in Hcap.
    + intros c Hc Hne. rewrite board_next_turn in Htops.
      specialize (Htops c Hc). rewrite cell_next_turn, deref_next_turn in Htops.
      by apply Htops.
  - eexists _, _. split; [done|]. split_and!; try done. left.
    split; [done|]. apply switch_turns_run.
Qed.

Lemma X20_zero_move_passes_witness :
  _game_board (move_piece "A" (0, 0) (0, 0) 0 alice_bob).2
  = _game_board alice_bob.
Proof.
  destruct (X20_zero_move_passes alice_bob "A" 0 0 FirstP)
    as (o & g' & Hrun & Hb & _).
  - repeat constructor.
  - reflexivity.
  - reflexivity.
  - reflexivity.
  - reflexivity.
  - vm_compute. discriminate.
  - rewrite Hrun. exact Hb.
Defined.

(** ** Whose turn it is after a sequence of calls *)

Lemma run_call_outcome g c o g' :
  square (_game_board g) → run_call c g = (o, g') →
  (carried_out o = false ∧ o ≠ Ret (PyStr "Wins") ∧ g' = g)
  ∨ (carried_out o = true ∧ completed o).
Proof.
  intros Hsq Hrun.
  destruct c as [n [row column]|n [r1 c1] [r2 c2] k];
    unfold run_call in Hrun.
  - apply reserved_move_inv in Hrun as [[-> [-> | ->]]|Hok];
      [by left|by left| |done].
    destruct Hok as (r & _ & _ & _ & _ & -> & _). right. split; [done|by left].
  - apply move_piece_inv in Hrun as [[-> [-> |[e ->]]]|Hok];
      [by left|by left| |done].
    destruct Hok as (r & _ & _ & _ & _ & _ & _ & _ & Hend). simpl in Hend.
    right. destruct Hend as [(_ & -> & _)|(_ & -> & _)];
      (split; [done|unfold completed; auto]).
Qed.

Lemma run_calls_after_win g cs :
  _player_turn g = None → run_calls cs g = g.
Proof.
  intros Ht. induction cs as [|c cs IH]; simpl; [done|].
  by destruct (run_call_game_over g c Ht) as [-> | ->].
Qed.

Lemma other_other r : other (other r) = r.
Proof. by destruct r. Qed.

Lemma two_players_same_name g r r' :
  two_players g → _name (deref g r) = _name (deref g r') → r = r'.
Proof. intros [Hne _]. destruct r, r'; simpl; congruence. Qed.

Lemma turn_parity cs :
  ∀ g r, square (_game_board g) → two_players g →
    _player_turn g = Some (_name (deref g r)) →
    ¬ game_won cs g →
    _player_turn (run_calls cs g)
    = Some (_name (deref g (if Nat.even (moves_made cs g) then r
                            else other r))).
Proof.
  induction cs as [|c cs IH]; intros g r Hsq Htwo Hturn Hnw; [done|].
  unfold game_won, moves_made in *. simpl in *.
  destruct (run_call c g) as [o g1] eqn:E. simpl in *.
  assert (Hnw1 : Ret (PyStr "Wins") ∉ outcomes cs g1)
    by (intros H; apply Hnw; by right).
  assert (Ho : o ≠ Ret (PyStr "Wins"))
    by (intros ->; apply Hnw; by left).
  destruct (run_call_stages _ _ _ _ Hsq E) as [[-> Hnot]|Hst].
  - destruct (run_call_outcome _ _ _ _ Hsq E) as [(Hc & _)|[_ Hd]]; [|done].
    rewrite filter_cons_False by congruence. by apply IH.
  - destruct Hst
      as (r0 & gl & dst & Hr0 & Ht0 & _ & _ & _ & Hn & Htl & _ & Hend).
    destruct Hend as [[Hg1 Hdone]|[_ ->]]; [|done].
    assert (Hc : carried_out o = true) by (by destruct Hdone as [-> | ->]).
    rewrite filter_cons_True by done. cbn [length].
    assert (r0 = r) as ->.
    { apply (two_players_same_name g); [done|].
      rewrite <- (two_players_lookup _ _ _ Htwo Hr0). congruence. }
    assert (Hpass : _player_turn g1 = Some (_name (deref g (other r)))).
    { rewrite Hg1. eapply turn_passes; eauto.
      - intros r'. by rewrite name_settle.
      - by rewrite turn_settle. }
    pose proof (run_call_names _ _ _ _ Hsq E) as Hnames.
    rewrite (IH g1 (other r)); [| |by eapply run_call_two_players| |done].
    + rewrite Hnames, Nat.even_succ, <- Nat.negb_even.
      destruct (Nat.even _); simpl; by rewrite ?other_other.
    + by apply (run_call_shape _ _ _ _ Hsq E).
    + by rewrite Hnames.
Qed.

Lemma turn_after_win cs :
  ∀ g, square (_game_board g) → game_won cs g →
       _player_turn (run_calls cs g) = None.
Proof.
  induction cs as [|c cs IH]; intros g Hsq Hw; unfold game_won in *;
    simpl in *; [by apply elem_of_nil in Hw|].
  destruct (run_call c g) as [o g1] eqn:E. simpl in *.
  destruct (decide (_player_turn g1 = None)) as [Hnone|Hsome].
  - by rewrite run_calls_after_win.
  - apply IH; [by apply (run_call_shape _ _ _ _ Hsq E)|].
    apply elem_of_cons in Hw as [<-|Hw]; [|done].
    exfalso. apply Hsome.
    destruct (run_call_stages _ _ _ _ Hsq E) as [[_ Hnot]|Hst].
    + destruct Hnot. by right; right.
    + destruct Hst as (r0 & gl & dst & _ & _ & _ & _ & _ & _ & _ & _ & Hend).
      destruct Hend as [[_ [?|?]]|[-> _]]; [congruence..|done].
Qed.

(** X21.  With two players of different names the turn follows the calls
    that were carried out: as long as no move has won, it is with the
    first player after an even number of them and with the second after an
    odd number, however many refused or failing calls lie between; once a
    move has won it is [None]. *)
Theorem X21_turn_follows_moves a b cs :
  a.1 ≠ b.1 →
  let g0 := new_game a b in
  (¬ game_won cs g0 →
     get_player_turn (run_calls cs g0)
     = Some (if Nat.even (moves_made cs g0) then a.1 else b.1))
  ∧ (game_won cs g0 → get_player_turn (run_calls cs g0) = None).
Proof.
  intros Hne. simpl. split.
  - intros Hnw. unfold get_player_turn.
    rewrite (turn_parity cs (new_game a b) FirstP);
      [|apply new_game_square|by split|done|done].
    by destruct (Nat.even _).
  - apply turn_after_win, new_game_square.
Qed.

Lemma X21_turn_follows_moves_witness :
  get_player_turn (run_calls overflow_game alice_bob) = Some "A".
Proof.
  destruct (X21_turn_follows_moves ("A", "R") ("B", "G") overflow_game)
    as [Hplay _].
  - discriminate.
  - assert (Hnw : ¬ game_won overflow_game alice_bob).
    { unfold game_won. vm_compute. intros H.
      repeat (apply elem_of_cons in H as [H|H]; [discriminate H|]).
      by apply elem_of_nil in H. }
    etransitivity; [exact (Hplay Hnw)|]. vm_compute. reflexivity.
Defined.

(** ** The board dump *)

Lemma for_range_foldl {A B} (l : list B) (f : A → B → A)
    (body : nat → A → G A) (g : FocusGame) :
  ∀ start acc,
    (∀ j x a, l !! j = Some x →
              body (start + j)%nat a g = (Ret (f a x), g)) →
    for_range (seq start (length l)) body acc g = (Ret (foldl f acc l), g).
Proof.
  induction l as [|x l IH]; intros start acc Hbody; simpl; [done|].
  unfold bind.
  pose proof (Hbody 0%nat x acc eq_refl) as H0.
  rewrite Nat.add_0_r in H0. rewrite H0.
  apply IH. intros j y a Hy.
  replace (S start + j)%nat with (start + S j)%nat by lia.
  by apply Hbody.
Qed.

Lemma py_index_nat len (j : nat) :
  (j < len)%nat → py_index len (Z.of_nat j) = Some j.
Proof.
  intros Hj. rewrite py_index_nonneg by lia. by rewrite Nat2Z.id.
Qed.

Lemma print_cell g row column line q (out : string) :
  _game_board g !! row = Some line → line !! column = Some q →
  (c ←' board_item (Z.of_nat row) (Z.of_nat column);
   if bool_decide (Q.get_length (cell g c) > 0) then
     top ←' display_top c;
     ret (out +:+ top +:+ " ")
   else ret (out +:+ " " +:+ " ")) g
  = (Ret (out +:+ cell_text q), g).
Proof.
  intros Hrow Hcol. unfold bind at 1. unfold board_item.
  rewrite py_index_nat by (eapply lookup_lt_Some; eauto).
  rewrite Hrow.
  rewrite py_index_nat by (eapply lookup_lt_Some; eauto).
  assert (Hq : cell g (row, column) = q).
  { unfold cell, board_cell. simpl. rewrite Hrow. simpl. by rewrite Hcol. }
  rewrite Hq. unfold Q.get_length, cell_text.
  destruct (data q) as [|v s] eqn:E.
  - rewrite bool_decide_eq_false_2 by (simpl; lia). done.
  - rewrite bool_decide_eq_true_2 by (simpl; lia).
    unfold bind, display_top, Q.display_top. rewrite Hq, E.
    destruct (last (v :: s)) eqn:El; [done|].
    by apply last_None in El.
Qed.

Lemma print_game_board_run g :
  print_game_board g = (Ret (board_text (_game_board g)), g).
Proof.
  unfold print_game_board, get_game_board, board_text.
  unfold bind at 1. unfold get.
  apply (for_range_foldl (_game_board g)
    (λ out line, foldl (λ out q, out +:+ cell_text q) out line +:+ newline)).
  intros row line out Hrow. simpl.
  unfold bind at 1. unfold row_item.
  rewrite py_index_nat by (eapply lookup_lt_Some; eauto).
  rewrite Hrow. unfold bind at 1.
  rewrite (for_range_foldl line (λ out q, out +:+ cell_text q)); [done|].
  intros column q a Hcol. simpl. by apply (print_cell g row column line).
Qed.

(** X22.  [print_game_board] never raises and never changes the state,
    whatever the board looks like, with empty stacks and with rows of any
    length: it writes one line per row, and in it, for every cell of that
    row, the symbol on top of the stack and a blank, or two blanks when the
    stack is empty. *)
Theorem X22_print_game_board g :
  print_game_board g
  = (Ret (foldl (λ out line,
        foldl (λ out q,
          out +:+ match last (data q) with
                  | Some top => top +:+ " "
                  | None => " " +:+ " "
                  end) out line +:+ newline) "" (_game_board g)), g).
Proof. apply print_game_board_run. Qed.

Lemma string_length_app (s t : string) :
  String.length (s +:+ t) = (String.length s + String.length t)%nat.
Proof. induction s as [|x s IH]; simpl; [done|]. by rewrite IH. Qed.

Lemma line_text_length (line : list Queue) (out : string) :
  Forall (λ q, String.length (cell_text q) = 2%nat) line →
  String.length (foldl (λ out q, out +:+ cell_text q) out line)
  = (String.length out + 2 * length line)%nat.
Proof.
  revert out. induction line as [|q line IH]; intros out Hl; simpl; [lia|].
  apply Forall_cons in Hl as [Hq Hl].
  rewrite IH by done. rewrite string_length_app, Hq. lia.
Qed.

Lemma board_text_length (b : list (list Queue)) (n : nat) (out : string) :
  Forall (λ line, length line = n
                  ∧ Forall (λ q, String.length (cell_text q) = 2%nat) line)
         b →
  String.length (foldl (λ out line,
      foldl (λ out q, out +:+ cell_text q) out line +:+ newline) out b)
  = (String.length out + length b * (2 * n + 1))%nat.
Proof.
  revert out. induction b as [|line b IH]; intros out Hb; simpl; [lia|].
  apply Forall_cons in Hb as [[Hn Hline] Hb].
  rewrite IH by done.
  rewrite string_length_app, line_text_length, Hn by done. simpl. lia.
Qed.

(** X23.  In every state a game reaches the board dump is 78 characters
    long: six lines of six cells of two characters each, and the six line
    ends. *)
Theorem X23_dump_size a b cs :
  ∃ text,
    print_game_board (run_calls cs (new_game a b))
    = (Ret text, run_calls cs (new_game a b))
    ∧ String.length text = 78%nat.
Proof.
  set (g := run_calls cs (new_game a b)).
  exists (board_text (_game_board g)). split; [apply print_game_board_run|].
  destruct (run_calls_invariant a b cs) as (Hsq & Hsix & _).
  destruct (symbols_ok_run_calls a b cs) as [Hc _].
  fold g in Hsq, Hsix, Hc.
  unfold board_text. rewrite (board_text_length _ 6); [by rewrite Hsix|].
  apply Forall_lookup. intros row line Hrow. split.
  - rewrite (square_lookup _ _ _ Hsq Hrow). done.
  - apply Forall_lookup. intros column q Hcol.
    assert (Hq : cell g (row, column) = q).
    { unfold cell, board_cell. simpl. rewrite Hrow. simpl. by rewrite Hcol. }
    specialize (Hc (row, column)). rewrite Hq in Hc.
    unfold cell_text. destruct (last (data q)) as [top|] eqn:El; [|done].
    apply last_Some_elem_of in El.
    rewrite Forall_forall in Hc. by destruct (Hc top El) as [-> | ->].
Qed.

(** ** Moves in a game *)

(** X24.  In every state a game reaches, a move that is carried out was
    made by the player whose turn it was, between two cells of the board,
    along a row or a column over exactly as many cells as pieces moved; it
    moves at most five pieces, and zero pieces exactly when the two cells
    are the same. *)
Theorem X24_moves_in_a_game a b cs name p1 p2 k o g' :
  move_piece name p1 p2 k (run_calls cs (new_game a b)) = (o, g') →
  completed o →
  _player_turn (run_calls cs (new_game a b)) = Some name
  ∧ in_bounds p1 ∧ in_bounds p2
  ∧ straight_line p1 p2 k
  ∧ 0 ≤ k ≤ 5
  ∧ (k = 0 ↔ p1 = p2).
Proof.
  intros Hrun Hdone. destruct p1 as [r1 c1], p2 as [r2 c2].
  destruct (run_calls_invariant a b cs) as (Hsq & Hsix & Hlow & _).
  set (g := run_calls cs (new_game a b)) in *.
  apply completed_inv in Hdone as [HnF HnR].
  apply move_piece_inv in Hrun as [[_ [?|[e ?]]]|Hok];
    [done|by destruct (HnR e)| |done].
  destruct Hok as (r & _ & Hturn & Hp1 & Hp2 & Hk & Hmv & _).
  apply (in_bounds_check g (r1, c1) (conj Hsix Hsq)) in Hp1.
  apply (in_bounds_check g (r2, c2) (conj Hsix Hsq)) in Hp2.
  apply check_move_spec in Hmv.
  specialize (Hlow (at_pos r1 c1)). unfold MAX_HEIGHT in Hlow.
  pose proof (Z.abs_spec (r1 - r2)) as Ar.
  pose proof (Z.abs_spec (c1 - c2)) as Ac.
  split_and!; try done.
  - destruct Hmv as [[_ <-]|[_ <-]]; lia.
  - lia.
  - split.
    + intros ->. f_equal; destruct Hmv as [[H1 H2]|[H1 H2]]; simpl in *; lia.
    + intros [= -> ->]. destruct Hmv as [[_ <-]|[_ <-]]; simpl; lia.
Qed.

Lemma X24_moves_in_a_game_witness :
  straight_line (2, 2) (2, 0) 2 ∧ 0 ≤ 2 ≤ 5.
Proof.
  destruct (X24_moves_in_a_game ("A", "R") ("B", "G")
              (take 12 overflow_game) "A" (2, 2) (2, 0) 2
              (Ret (PyStr "successfully moved"))
              (move_piece "A" (2, 2) (2, 0) 2
                 (run_calls (take 12 overflow_game) alice_bob)).2)
    as (_ & _ & _ & Hline & Hk & _).
  - vm_compute. reflexivity.
  - right. left. reflexivity.
  - split; [exact Hline | exact Hk].
Defined.

(** X25.  With two players of different names and the turn with one of
    them, switching turns twice gives the state back; and whatever the turn
    was before, after [switch_turns] it is with one of the two players,
    with the first one also when it was [None]. *)
Theorem X25_switch_turns_twice g :
  two_players g →
  (_player_turn g = Some (_name (_first_player g))
   ∨ _player_turn g = Some (_name (_second_player g)) →
   (switch_turns ;;' switch_turns) g = (Ret tt, g))
  ∧ (_player_turn g = None →
     _player_turn (switch_turns g).2 = Some (_name (_first_player g))).
Proof.
  intros [Hne _]. split.
  - intros Ht. destruct g as [bd p1 p2 d t]. simpl in *.
    unfold bind, switch_turns, set_turn, P.get_name. simpl.
    destruct Ht as [-> | ->].
    + rewrite bool_decide_eq_true_2 by done. simpl.
      by rewrite bool_decide_eq_false_2 by congruence.
    + rewrite bool_decide_eq_false_2 by congruence. simpl.
      by rewrite bool_decide_eq_true_2 by done.
  - intros Ht. unfold switch_turns, P.get_name. rewrite Ht.
    by rewrite bool_decide_eq_false_2.
Qed.

Lemma X25_switch_turns_twice_witness :
  (switch_turns ;;' switch_turns) alice_bob = (Ret tt, alice_bob).
Proof.
  destruct (X25_switch_turns_twice alice_bob) as [Htwice _].
  - split; [discriminate | reflexivity].
  - apply Htwice. left. reflexivity.
Defined.

(** ** Calls that are turned down *)

(** X26.  On the 6x6 board, a call of a player of the dictionary for which
    a precondition fails returns [False] and leaves the whole state as it
    was, unless it is the move of zero pieces from a cell to itself; and
    whatever the caller, a call that is not carried out, whether it returns
    [False] or raises, leaves the whole state as it was. *)
Theorem X26_refusal_is_atomic g c :
  board_6x6 g →
  (∀ r, _players g !! caller c = Some r → refused g r c →
        ¬ zero_self_move c →
        run_call c g = (Ret PyFalse, g))
  ∧ (∀ o g', run_call c g = (o, g') → ¬ completed o → g' = g).
Proof.
  intros Hb. pose proof Hb as [Hsix Hsq].
  split; [|intros o g'; by apply unfinished_unchanged].
  intros r Hr Href Hzero.
  destruct c as [n [row column]|n [r1 c1] [r2 c2] k];
    simpl in Hr, Href, Hzero; unfold run_call.
  - rewrite (reserved_move_run g n row column r Hsq Hr).
    case_bool_decide as Ht; [done|].
    case_bool_decide as Hres; [done|].
    destruct (check_position g row column) eqn:Hpos; [|done].
    apply (in_bounds_check g (row, column) Hb) in Hpos.
    destruct Href as [Hn|[Hn|Hn]]; [congruence|lia|done].
  - rewrite (move_piece_run g n r1 c1 r2 c2 k r Hsq Hr). simpl.
    case_bool_decide as Ht; [done|].
    destruct (check_position g r1 c1) eqn:Hp1; [|done].
    destruct (check_position g r2 c2) eqn:Hp2; [|done].
    simpl.
    apply (in_bounds_check g (r1, c1) Hb) in Hp1.
    apply (in_bounds_check g (r2, c2) Hb) in Hp2.
    case_bool_decide as Hk; [done|].
    destruct (check_move r1 c1 r2 c2 k) eqn:Hmv; [|done]. simpl.
    apply check_move_spec in Hmv.
    destruct Href as [Hn|[Hn|[Hn|[Hn|[Hn|(top & Htop & Hne)]]]]];
      [congruence|done|done|lia| |].
    + exfalso.
      pose proof (Z.abs_spec (r1 - r2)) as Ar.
      pose proof (Z.abs_spec (c1 - c2)) as Ac.
      destruct (decide (1 ≤ k)) as [Hk1|Hk0]; [by apply Hn|].
      apply Hzero.
      destruct Hmv as [[H1 H2]|[H1 H2]]; simpl in *;
        (split; [lia|f_equal; lia]).
    + unfold Q.display_top. rewrite Htop.
      by rewrite bool_decide_eq_true_2 by congruence.
Qed.

Lemma X26_refusal_is_atomic_witness :
  run_call (MovePiece "A" (0, 0) (1, 1) 1) alice_bob = (Ret PyFalse, alice_bob)
  ∧ run_call (ReservedMove "A" (0, 0)) alice_bob = (Ret PyFalse, alice_bob)
  ∧ (run_call (MovePiece "Z" (0, 0) (0, 1) 1) alice_bob).2 = alice_bob.
Proof.
  split; [|split].
  - apply (X26_refusal_is_atomic alice_bob (MovePiece "A" (0, 0) (1, 1) 1))
      with (r := FirstP).
    + split; [reflexivity | repeat constructor].
    + reflexivity.
    + simpl. do 4 right. left. unfold straight_line. simpl. lia.
    + simpl. lia.
  - apply (X26_refusal_is_atomic alice_bob (ReservedMove "A" (0, 0)))
      with (r := FirstP).
    + split; [reflexivity | repeat constructor].
    + reflexivity.
    + simpl. right. left. simpl. lia.
    + simpl. tauto.
  - apply (X26_refusal_is_atomic alice_bob (MovePiece "Z" (0, 0) (0, 1) 1))
      with (o := Raise KeyError).
    + split; [reflexivity | repeat constructor].
    + vm_compute. reflexivity.
    + intros [H|[H|H]]; discriminate H.
Defined.
